(** * bf.cpp: a Brainfuck interpreter with pre-resolved jumps

    A shallow embedding of [bf.cpp]: the state, the eight instruction
    classes, the two program builders ([parse_code] and [FlyweightCode]),
    the dispatch loop of [BrainfuckInterpreter], the source filter
    [is_bf_char] and [main].

    Conventions.
    - [size_t] is a 64-bit unsigned integer, modelled as [Z] with the
      wrap-around written out ([wrap_size]); [uint8_t] likewise
      ([wrap_u8]).
    - A [std::vector] used as a stack is a list whose head is [back()].
    - [std::map<size_t, unique_ptr<Instruction>>] is a [gmap Z Instruction].
    - What C++ leaves undefined is an explicit [undefined] fault, and the
      exception of [std::map::at] is the fault [out_of_range]. *)

From Stdlib Require Import ZArith Lia Ascii String List.
From stdpp Require Import base option list gmap strings.

Local Open Scope Z_scope.

(** ** Machine integers *)

Definition wrap_size (z : Z) : Z := z mod 2 ^ 64.
Definition wrap_u8 (z : Z) : Z := z mod 256.

(** ** Outcomes *)

(** The places where the source steps outside defined behaviour. *)
Inductive UB : Type :=
  | EmptyBack        (* std::vector::back / pop_back on an empty vector *)
  | NullInstruction  (* ->execute through a null Instruction pointer *)
  | FieldBounds      (* state.field[...] outside the allocated array *)
  | CodeBounds.      (* operator[] of the string or vector past its end *)

Inductive Fault : Type :=
  | out_of_range              (* thrown by std::map::at *)
  | undefined (why : UB).

Inductive Result (A : Type) : Type :=
  | Ok (a : A)
  | Raise (f : Fault).
Arguments Ok {A} a.
Arguments Raise {A} f.

Definition is_ok {A} (r : Result A) : bool :=
  match r with Ok _ => true | Raise _ => false end.

(** ** Console: the process's standard input and output *)

Record Console : Type := mkConsole {
  cin : list Z;    (* bytes still to be read from stdin *)
  cout : list Z    (* bytes written to stdout so far, oldest first *)
}.

(** Code that may fault and talks to the console. *)
Definition M (A : Type) : Type := Console -> Result (A * Console).

#[global] Instance M_ret : MRet M := fun A (a : A) con => Ok (a, con).
#[global] Instance M_bind : MBind M := fun A B (k : A -> M B) (m : M A) con =>
  match m con with
  | Ok (a, con') => k a con'
  | Raise f => Raise f
  end.
Definition lift {A} (r : Result A) : M A :=
  fun con => match r with Ok a => Ok (a, con) | Raise f => Raise f end.

(** ** I/O policies: [StdOutputter], [HexOutputter], [StdInputter] *)

Inductive Outputter : Type := StdOutputter | HexOutputter.
Inductive Inputter : Type := StdInputter.

(** The ASCII code of one lowercase hexadecimal digit, as [%x] prints it. *)
Definition hex_digit (n : Z) : Z := if n <? 10 then 48 + n else 87 + n.

Definition putbytes (bs : list Z) : M unit :=
  fun con => Ok (tt, {| cin := cin con; cout := cout con ++ bs |}).

(** [getchar()]: the next byte, or [EOF] = -1. *)
Definition getchar : M Z :=
  fun con => match cin con with
             | [] => Ok (-1, con)
             | b :: rest => Ok (b, {| cin := rest; cout := cout con |})
             end.

Definition out (o : Outputter) (x : Z) : M unit :=
  match o with
  | StdOutputter => putbytes [x]
  | HexOutputter =>
      let y := Z.land x 255 in
      putbytes [hex_digit (y / 16); hex_digit (y mod 16)]
  end.

(** [uint8_t in() const { return std::getchar(); }]: the [int] is narrowed
    to [uint8_t], so end of input reads as 255. *)
Definition in_ (i : Inputter) : M Z :=
  match i with
  | StdInputter => c ← getchar; mret (wrap_u8 c)
  end.

(** ** [BrainfuckState] *)

Record BrainfuckState : Type := mkState {
  data_counter : Z;
  program_counter : Z;
  field : list Z
}.

Definition with_data_counter (st : BrainfuckState) (d : Z) : BrainfuckState :=
  {| data_counter := d; program_counter := program_counter st; field := field st |}.
Definition with_program_counter (st : BrainfuckState) (p : Z) : BrainfuckState :=
  {| data_counter := data_counter st; program_counter := p; field := field st |}.
Definition with_field (st : BrainfuckState) (f : list Z) : BrainfuckState :=
  {| data_counter := data_counter st; program_counter := program_counter st; field := f |}.

(** Whether [data_counter] indexes a cell of the allocated array. *)
Definition in_field (st : BrainfuckState) : bool :=
  (0 <=? data_counter st) && (data_counter st <? Z.of_nat (length (field st))).

(** [state.field[state.data_counter]] as an rvalue. *)
Definition read_cell (st : BrainfuckState) : Result Z :=
  if in_field st then
    match field st !! Z.to_nat (data_counter st) with
    | Some v => Ok v
    | None => Raise (undefined FieldBounds)
    end
  else Raise (undefined FieldBounds).

(** [state.field[state.data_counter] = v]. *)
Definition write_cell (st : BrainfuckState) (v : Z) : Result BrainfuckState :=
  if in_field st
  then Ok (with_field st (<[Z.to_nat (data_counter st) := v]> (field st)))
  else Raise (undefined FieldBounds).

(** ** The instruction classes *)

Inductive Instruction : Type :=
  | NextDataInstruction
  | PrevDataInstruction
  | IncDataInstruction
  | DecDataInstruction
  | JumpZeroInstruction (m_to : Z)
  | JumpNonzeroInstruction (m_to : Z)
  | InInstruction (i : Inputter)
  | OutInstruction (o : Outputter).

Definition execute (ins : Instruction) (st : BrainfuckState) : M BrainfuckState :=
  match ins with
  | NextDataInstruction =>
      mret (with_data_counter st (wrap_size (data_counter st + 1)))
  | PrevDataInstruction =>
      mret (with_data_counter st (wrap_size (data_counter st - 1)))
  | IncDataInstruction =>
      v ← lift (read_cell st); lift (write_cell st (wrap_u8 (v + 1)))
  | DecDataInstruction =>
      v ← lift (read_cell st); lift (write_cell st (wrap_u8 (v - 1)))
  | JumpZeroInstruction m_to =>
      v ← lift (read_cell st);
      if 0 =? v then mret (with_program_counter st m_to) else mret st
  | JumpNonzeroInstruction m_to =>
      v ← lift (read_cell st);
      if negb (0 =? v) then mret (with_program_counter st m_to) else mret st
  | InInstruction i =>
      v ← in_ i; lift (write_cell st v)
  | OutInstruction o =>
      v ← lift (read_cell st); out o v;; mret st
  end.

(** ** Source text *)

(** The characters of a [std::string], first to last. *)
Definition chars (code : string) : list ascii := list_ascii_of_string code.

(** [code.length()]. *)
Definition code_length (code : string) : Z := Z.of_nat (length (chars code)).

(** [code[i]] of a [std::string]: the character at [i]; at [i = length()]
    a reference to the terminating null; past that, undefined. *)
Definition string_at (code : string) (i : Z) : Result ascii :=
  if (0 <=? i) && (i <? code_length code) then
    match chars code !! Z.to_nat i with
    | Some c => Ok c
    | None => Raise (undefined CodeBounds)
    end
  else if i =? code_length code then Ok Ascii.zero
  else Raise (undefined CodeBounds).

(** [for (size_t i = i0; i < code.length(); ++i) body(code[i], i)] over the
    characters that remain; [i] stays below [code.length()], so [++i] never
    wraps. *)
Fixpoint for_chars {S : Type} (body : ascii -> Z -> S -> Result S)
    (cs : list ascii) (i : Z) (s : S) : Result S :=
  match cs with
  | [] => Ok s
  | c :: cs' =>
      match body c i s with
      | Ok s' => for_chars body cs' (i + 1) s'
      | Raise f => Raise f
      end
  end.

(** [is_bf_char]. *)
Definition is_bf_char (c : ascii) : bool :=
  if (c =? "+")%char then true
  else if (c =? "-")%char then true
  else if (c =? ">")%char then true
  else if (c =? "<")%char then true
  else if (c =? ".")%char then true
  else if (c =? ",")%char then true
  else if (c =? "[")%char then true
  else if (c =? "]")%char then true
  else false.

(** [std::copy_if(..., is_bf_char)] into [code_string]. *)
Definition filter_source (raw : string) : string :=
  string_of_list_ascii (List.filter is_bf_char (chars raw)).

(** ** The interface the interpreter asks of a program: [operator[]] and
    [size()]. A fetched pointer may be null ([None]). *)

Class BFCode (C : Type) : Type := {
  code_at : C -> Z -> Result (option Instruction);
  code_size : C -> Z
}.

(** ** [parse_code]: a vector of owned instructions *)

Abbreviation unique_ptr_code := (list (option Instruction)).

(** Body of the loop of [parse_code]; the state is [(brackets, ret)]. *)
Definition parse_code_body (c : ascii) (i : Z)
    (s : list Z * unique_ptr_code) : Result (list Z * unique_ptr_code) :=
  let '(brackets, ret) := s in
  let put (ins : Instruction) := <[Z.to_nat i := Some ins]> ret in
  if (c =? "+")%char then Ok (brackets, put IncDataInstruction)
  else if (c =? "-")%char then Ok (brackets, put DecDataInstruction)
  else if (c =? ">")%char then Ok (brackets, put NextDataInstruction)
  else if (c =? "<")%char then Ok (brackets, put PrevDataInstruction)
  else if (c =? ".")%char then Ok (brackets, put (OutInstruction StdOutputter))
  else if (c =? ",")%char then Ok (brackets, put (InInstruction StdInputter))
  else if (c =? "[")%char then Ok (i :: brackets, ret)
  else if (c =? "]")%char then
    match brackets with
    | [] => Raise (undefined EmptyBack)
    | j :: brackets' =>
        Ok (brackets',
            <[Z.to_nat i := Some (JumpNonzeroInstruction j)]>
              (<[Z.to_nat j := Some (JumpZeroInstruction i)]> ret))
    end
  else Ok (brackets, ret).

Definition parse_code (code : string) : Result unique_ptr_code :=
  match for_chars parse_code_body (chars code) 0
          ([], replicate (length (chars code)) None) with
  | Ok (_, ret) => Ok ret
  | Raise f => Raise f
  end.

#[global] Instance unique_ptr_code_BFCode : BFCode unique_ptr_code := {
  code_at ret i :=
    if (0 <=? i) && (i <? Z.of_nat (length ret)) then
      match ret !! Z.to_nat i with
      | Some p => Ok p
      | None => Raise (undefined CodeBounds)
      end
    else Raise (undefined CodeBounds);
  code_size ret := Z.of_nat (length ret)
}.

(** ** [FlyweightCode]: shared simple instructions and a bracket map *)

Record FlyweightCode : Type := mkFlyweightCode {
  m_code : string;
  m_bracket_map : gmap Z Instruction;
  m_inc : Instruction;
  m_dec : Instruction;
  m_next : Instruction;
  m_prev : Instruction;
  m_in : Instruction;
  m_out : Instruction
}.

(** Body of the loop of [build_bracket_map]; the state is
    [(bracket_stack, m_bracket_map)]. *)
Definition build_bracket_map_body (c : ascii) (i : Z)
    (s : list Z * gmap Z Instruction) : Result (list Z * gmap Z Instruction) :=
  let '(bracket_stack, bracket_map) := s in
  if ("[" =? c)%char then Ok (i :: bracket_stack, bracket_map)
  else if ("]" =? c)%char then
    match bracket_stack with
    | [] => Raise (undefined EmptyBack)
    | j :: bracket_stack' =>
        Ok (bracket_stack',
            <[i := JumpNonzeroInstruction j]>
              (<[j := JumpZeroInstruction i]> bracket_map))
    end
  else Ok (bracket_stack, bracket_map).

Definition build_bracket_map (code : string) : Result (gmap Z Instruction) :=
  match for_chars build_bracket_map_body (chars code) 0 ([], ∅) with
  | Ok (_, bracket_map) => Ok bracket_map
  | Raise f => Raise f
  end.

(** The constructor, with the template's [Outputter] and [Inputter]. *)
Definition FlyweightCode_new (O : Outputter) (I : Inputter) (code : string)
    : Result FlyweightCode :=
  match build_bracket_map code with
  | Ok bracket_map =>
      Ok {| m_code := code; m_bracket_map := bracket_map;
            m_inc := IncDataInstruction; m_dec := DecDataInstruction;
            m_next := NextDataInstruction; m_prev := PrevDataInstruction;
            m_in := InInstruction I; m_out := OutInstruction O |}
  | Raise f => Raise f
  end.

(** [m_bracket_map.at(i).get()]. *)
Definition bracket_map_at (bracket_map : gmap Z Instruction) (i : Z)
    : Result (option Instruction) :=
  match bracket_map !! i with
  | Some ins => Ok (Some ins)
  | None => Raise out_of_range
  end.

(** [FlyweightCode::operator[]]. *)
Definition FlyweightCode_at (fc : FlyweightCode) (i : Z)
    : Result (option Instruction) :=
  match string_at (m_code fc) i with
  | Raise f => Raise f
  | Ok c =>
      if (c =? "+")%char then Ok (Some (m_inc fc))
      else if (c =? "-")%char then Ok (Some (m_dec fc))
      else if (c =? ">")%char then Ok (Some (m_next fc))
      else if (c =? "<")%char then Ok (Some (m_prev fc))
      else if (c =? ".")%char then Ok (Some (m_out fc))
      else if (c =? ",")%char then Ok (Some (m_in fc))
      else if ((c =? "[") || (c =? "]"))%char
      then bracket_map_at (m_bracket_map fc) i
      else Ok None
  end.

#[global] Instance FlyweightCode_BFCode : BFCode FlyweightCode := {
  code_at := FlyweightCode_at;
  code_size fc := code_length (m_code fc)
}.

(** ** [BrainfuckInterpreter] *)

Section Interpreter.
Context {C : Type} `{BFCode C}.

(** [m_code[state.program_counter]], a pointer that must not be null
    when [->execute] goes through it. *)
Definition fetch (code : C) (st : BrainfuckState) : Result Instruction :=
  match code_at code (program_counter st) with
  | Ok (Some ins) => Ok ins
  | Ok None => Raise (undefined NullInstruction)
  | Raise f => Raise f
  end.

(** [step]. *)
Definition step (code : C) (st : BrainfuckState) : M BrainfuckState :=
  ins ← lift (fetch code st);
  st' ← execute ins st;
  mret (with_program_counter st' (wrap_size (program_counter st' + 1))).

(** [interpret]: the [while] loop, cut off after [fuel] iterations
    ([None]); [Some] is what the loop itself comes to. *)
Fixpoint interpret (fuel : nat) (code : C) (st : BrainfuckState)
    (con : Console) : option (Result (BrainfuckState * Console)) :=
  if program_counter st <? code_size code then
    match fuel with
    | O => None
    | S fuel' =>
        match step code st con with
        | Ok (st', con') => interpret fuel' code st' con'
        | Raise f => Some (Raise f)
        end
    end
  else Some (Ok (st, con)).

(** [k] iterations of the loop body, whatever the loop condition. *)
Fixpoint steps (k : nat) (code : C) (st : BrainfuckState) : M BrainfuckState :=
  match k with
  | O => mret st
  | S k' => st' ← step code st; steps k' code st'
  end.
End Interpreter.

(** ** [main] *)

(** The state [main] creates: both counters 0 and 0x2000 zeroed cells. *)
Definition initial_state : BrainfuckState :=
  {| data_counter := 0; program_counter := 0;
     field := replicate (Z.to_nat 0x2000) 0 |}.

(** How a run of the process ends when it returns from [main]. *)
Record Exit : Type := mkExit {
  exit_status : Z;
  err_stream : string;                  (* text written to std::cerr *)
  opened : list string;                 (* paths given to std::ifstream *)
  final_state : option BrainfuckState;  (* None: no state was created *)
  final_console : Console
}.

Definition endl : string := String (ascii_of_nat 10) EmptyString.

(** [main]. [argv] is [argv0 :: args] (a hosted process has its name in
    [argv[0]]); [fs] gives the content of the files that can be opened,
    an [ifstream] that fails to open yields no character. [None] is a
    dispatch loop cut off by [fuel]; [Raise] is a run that does not
    return from [main]. *)
Definition main (fuel : nat) (argv0 : string) (args : list string)
    (fs : string -> option string) (con : Console) : option (Result Exit) :=
  let argv := argv0 :: args in
  let argc := Z.of_nat (length argv) in
  if argc <? 2 then
    Some (Ok {| exit_status := 1;
                err_stream := "Usage: " +:+ argv0 +:+ " [bf-file]" +:+ endl;
                opened := [];
                final_state := None;
                final_console := con |})
  else
    let path := default EmptyString (argv !! 1%nat) in
    let code_string := filter_source (default EmptyString (fs path)) in
    let state := initial_state in
    match FlyweightCode_new StdOutputter StdInputter code_string with
    | Raise f => Some (Raise f)
    | Ok code =>
        match interpret fuel code state con with
        | None => None
        | Some (Raise f) => Some (Raise f)
        | Some (Ok (state', con')) =>
            Some (Ok {| exit_status := 0;
                        err_stream := EmptyString;
                        opened := [path];
                        final_state := Some state';
                        final_console := con' |})
        end
    end.

(** ** Bracket structure of a source text

    The notions the builders are judged against: nesting depth, balance,
    and the partner of a bracket found by counting depth from it. *)

(** Nesting depth after [cs], entered at [depth]; [None] when some ["]"]
    closes nothing. *)
Fixpoint scan (cs : list ascii) (depth : nat) : option nat :=
  match cs with
  | [] => Some depth
  | c :: cs' =>
      if (c =? "[")%char then scan cs' (S depth)
      else if (c =? "]")%char then
        match depth with
        | O => None
        | S d => scan cs' d
        end
      else scan cs' depth
  end.

Definition balanced (code : string) : bool :=
  match scan (chars code) 0 with
  | Some O => true
  | _ => false
  end.

(** Some ["]"] has no partner. *)
Definition unmatched_close (code : string) : bool :=
  match scan (chars code) 0 with
  | None => true
  | Some _ => false
  end.

(** No ["]"] lacks a partner, some ["["] does. *)
Definition unmatched_open_only (code : string) : bool :=
  match scan (chars code) 0 with
  | Some (S _) => true
  | _ => false
  end.

Section Nearest.
Variables up down : ascii.

(** Offset in [cs] of the first [down] met at nesting depth [depth],
    where [up] nests one deeper. *)
Fixpoint nearest (cs : list ascii) (depth : nat) : option nat :=
  match cs with
  | [] => None
  | c :: cs' =>
      if (c =? up)%char then S <$> nearest cs' (S depth)
      else if (c =? down)%char then
        match depth with
        | O => Some O
        | S d => S <$> nearest cs' d
        end
      else S <$> nearest cs' depth
  end.
End Nearest.

(** Index of the ["]"] that closes the ["["] at index [i]. *)
Definition matching_close (cs : list ascii) (i : nat) : option nat :=
  (λ k, i + 1 + k)%nat <$> nearest "[" "]" (drop (S i) cs) 0.

(** Index of the ["["] that the ["]"] at index [j] closes. *)
Definition matching_open (cs : list ascii) (j : nat) : option nat :=
  (λ k, j - 1 - k)%nat <$> nearest "]" "[" (rev (take j cs)) 0.

(** ** Notions used in the statements *)

Abbreviation bracket_map_t := (gmap Z Instruction).

Definition is_jump (ins : Instruction) : bool :=
  match ins with
  | JumpZeroInstruction _ | JumpNonzeroInstruction _ => true
  | _ => false
  end.

Definition moves_data_counter (ins : Instruction) : bool :=
  match ins with
  | NextDataInstruction | PrevDataInstruction => true
  | _ => false
  end.

Definition changes_cell (ins : Instruction) : bool :=
  match ins with
  | IncDataInstruction | DecDataInstruction => true
  | _ => false
  end.

(** [execute] comes to a result exactly on these states: the two cursor
    moves do not look at the tape, every other instruction does. *)
Definition defined_on (ins : Instruction) (st : BrainfuckState) : bool :=
  moves_data_counter ins || in_field st.

(** Whether the jump [ins] is taken on a current cell holding [v]. *)
Definition jump_taken (ins : Instruction) (v : Z) : bool :=
  match ins with
  | JumpZeroInstruction _ => 0 =? v
  | JumpNonzeroInstruction _ => negb (0 =? v)
  | _ => false
  end.

(** Every index below [size()] fetches an instruction. *)
Definition well_formed {C : Type} `{BFCode C} (code : C) : Prop :=
  forall i, 0 <= i < code_size code -> exists ins, code_at code i = Ok (Some ins).

Section NestedTexts.
Variables up down : ascii.

(** Texts in which every [up] is closed by a later [down] and every
    [down] closes an earlier [up]. *)
Inductive Nested : list ascii -> Prop :=
  | Nested_nil : Nested []
  | Nested_skip (c : ascii) (cs : list ascii) :
      c <> up -> c <> down -> Nested cs -> Nested (c :: cs)
  | Nested_pair (inner rest : list ascii) :
      Nested inner -> Nested rest -> Nested (up :: inner ++ down :: rest).
End NestedTexts.

Abbreviation Balanced := (Nested "[" "]").

(** Texts in which no ["]"] lacks a partner: nested stretches separated
    by ["["]s that are never closed. *)
Inductive Opened : list ascii -> Prop :=
  | Opened_nested (b : list ascii) : Balanced b -> Opened b
  | Opened_open (b u : list ascii) :
      Balanced b -> Opened u -> Opened (b ++ "["%char :: u).

(** The brackets of [b], which starts at index [i] of the source, are
    resolved in [m]: each ["["] holds a jump-if-zero to its partner and
    each ["]"] a jump-if-nonzero to its partner. *)
Definition resolves (b : list ascii) (i : Z) (m : bracket_map_t) : Prop :=
  (forall k : nat, b !! k = Some "["%char ->
     exists j, matching_close b k = Some j /\ matching_open b j = Some k /\
       m !! (i + Z.of_nat k) = Some (JumpZeroInstruction (i + Z.of_nat j))) /\
  (forall j : nat, b !! j = Some "]"%char ->
     exists k, matching_open b j = Some k /\ matching_close b k = Some j /\
       m !! (i + Z.of_nat j) = Some (JumpNonzeroInstruction (i + Z.of_nat k))).

(** The entry [ins] at key [k] is a jump between [k] and an index of the
    first [n] characters, forward for a jump-if-zero and backward for a
    jump-if-nonzero. *)
Definition jump_within (n k : Z) (ins : Instruction) : Prop :=
  0 <= k < n /\
  ((exists t, ins = JumpZeroInstruction t /\ k < t < n) \/
   (exists t, ins = JumpNonzeroInstruction t /\ 0 <= t < k)).

Definition is_bracket (c : ascii) : bool := ((c =? "[") || (c =? "]"))%char.

(** What both [switch] statements select for a character that is not a
    bracket, with the default I/O policies; [None] is the null pointer
    left for a character outside the language. *)
Definition simple_instruction (c : ascii) : option Instruction :=
  if (c =? "+")%char then Some IncDataInstruction
  else if (c =? "-")%char then Some DecDataInstruction
  else if (c =? ">")%char then Some NextDataInstruction
  else if (c =? "<")%char then Some PrevDataInstruction
  else if (c =? ".")%char then Some (OutInstruction StdOutputter)
  else if (c =? ",")%char then Some (InInstruction StdInputter)
  else None.

(** After [i] characters: the vector slot of a bracket holds what the
    bracket map holds at that index (null when it holds nothing), the
    slot of any other character holds its instruction once the loop has
    passed it and null before. *)
Definition slots_agree (full : list ascii) (i : nat) (ret : unique_ptr_code)
    (m : bracket_map_t) : Prop :=
  forall (k : nat) (c : ascii), full !! k = Some c ->
    ret !! k = Some (if is_bracket c then m !! Z.of_nat k
                     else if decide (k < i)%nat then simple_instruction c
                     else None).

(** Construction rejects a source: it ends in a reported error, a fault
    that is not undefined behaviour, so that there is no program for the
    dispatch loop to run. *)
Definition construction_rejects (O : Outputter) (I : Inputter) (code : string)
    : Prop :=
  exists f, FlyweightCode_new O I code = Raise f /\ forall why, f <> undefined why.

(** ** Values to evaluate on *)

(** A small state and console to evaluate on. *)
Definition sample_state : BrainfuckState :=
  {| data_counter := 1; program_counter := 5; field := [7; 255; 0] |}.
Definition sample_console : Console := {| cin := [65]; cout := [] |}.

(** The program of [+[-]] as [FlyweightCode] builds it. *)
Definition clear_loop : FlyweightCode :=
  {| m_code := "+[-]";
     m_bracket_map :=
       <[3 := JumpNonzeroInstruction 1]> (<[1 := JumpZeroInstruction 3]> ∅);
     m_inc := IncDataInstruction; m_dec := DecDataInstruction;
     m_next := NextDataInstruction; m_prev := PrevDataInstruction;
     m_in := InInstruction StdInputter; m_out := OutInstruction StdOutputter |}.

(** Exit status and bytes written of a run that returned from [main]. *)
Definition status_and_output (r : option (Result Exit)) : option (Z * list Z) :=
  match r with
  | Some (Ok e) => Some (exit_status e, cout (final_console e))
  | _ => None
  end.

Definition file (content : string) : string -> option string :=
  fun _ => Some content.

Definition hello_world : string :=
  "++++++++[>++++[>++>+++>+++>+<<<<-]>+>+>->>+[<]<-]>>.>---.+++++++..+++.>>.<-.<.+++.------.--------.>>+.>++.".

(** ** The dispatch loop as the specification words it

    Relations written from the specification's sentence, to compare
    [step] and [interpret] with: one iteration is taken only while the
    program counter is below the program's size, and is one fetch of the
    instruction at the program counter, one execute against the state,
    then one increment of the program counter. *)

Section LoopSemantics.
Context {C : Type} `{BFCode C}.

(** One completed iteration. *)
Inductive iteration (code : C) :
    BrainfuckState * Console -> BrainfuckState * Console -> Prop :=
  | iteration_intro (st st1 : BrainfuckState) (con con1 : Console)
      (ins : Instruction) :
      program_counter st < code_size code ->
      code_at code (program_counter st) = Ok (Some ins) ->
      execute ins st con = Ok (st1, con1) ->
      iteration code (st, con)
        (with_program_counter st1 (wrap_size (program_counter st1 + 1)), con1).

(** Exactly [k] completed iterations in a row. *)
Inductive iterations (code : C) :
    nat -> BrainfuckState * Console -> BrainfuckState * Console -> Prop :=
  | iterations_O (s : BrainfuckState * Console) : iterations code 0 s s
  | iterations_S (k : nat) (s s1 s' : BrainfuckState * Console) :
      iteration code s s1 -> iterations code k s1 s' ->
      iterations code (S k) s s'.

(** An iteration that is begun and does not complete: the fetch throws or
    is undefined, the fetched pointer is null, or the instruction faults. *)
Inductive iteration_fails (code : C) :
    BrainfuckState * Console -> Fault -> Prop :=
  | fails_fetch (st : BrainfuckState) (con : Console) (f : Fault) :
      program_counter st < code_size code ->
      code_at code (program_counter st) = Raise f ->
      iteration_fails code (st, con) f
  | fails_null (st : BrainfuckState) (con : Console) :
      program_counter st < code_size code ->
      code_at code (program_counter st) = Ok None ->
      iteration_fails code (st, con) (undefined NullInstruction)
  | fails_execute (st : BrainfuckState) (con : Console) (ins : Instruction)
      (f : Fault) :
      program_counter st < code_size code ->
      code_at code (program_counter st) = Ok (Some ins) ->
      execute ins st con = Raise f ->
      iteration_fails code (st, con) f.
End LoopSemantics.

(** ** Notions used in the further properties *)

(** The value of a lowercase hexadecimal digit character, by its ASCII
    code. *)
Definition hex_value (b : Z) : option Z :=
  if (48 <=? b) && (b <=? 57) then Some (b - 48)
  else if (97 <=? b) && (b <=? 102) then Some (b - 87)
  else None.

(** What [FlyweightCode::operator[]] selects for a character that is not
    a bracket, with the policies [O] and [I]. *)
Definition flyweight_instruction (O : Outputter) (I : Inputter) (c : ascii)
    : option Instruction :=
  if (c =? "+")%char then Some IncDataInstruction
  else if (c =? "-")%char then Some DecDataInstruction
  else if (c =? ">")%char then Some NextDataInstruction
  else if (c =? "<")%char then Some PrevDataInstruction
  else if (c =? ".")%char then Some (OutInstruction O)
  else if (c =? ",")%char then Some (InInstruction I)
  else None.

Definition is_input (ins : Instruction) : bool :=
  match ins with InInstruction _ => true | _ => false end.

Definition is_output (ins : Instruction) : bool :=
  match ins with OutInstruction _ => true | _ => false end.

(** No character of [code] is [c]. *)
Definition lacks (c : ascii) (code : string) : bool :=
  forallb (fun x => negb (x =? c)%char) (chars code).

(** Both counters are values of [size_t]. *)
Definition counters_in_range (st : BrainfuckState) : Prop :=
  0 <= data_counter st < 2 ^ 64 /\ 0 <= program_counter st < 2 ^ 64.

(** The entry [ins] at key [k] of the bracket map [m], over the first [n]
    characters of [full]: it sits at a bracket, is the jump of that
    bracket's kind, and its target is a bracket of the other kind whose
    own entry points back at [k]. *)
Definition entry_paired (full : list ascii) (n : Z) (m : bracket_map_t)
    (k : Z) (ins : Instruction) : Prop :=
  0 <= k < n /\
  ((full !! Z.to_nat k = Some "["%char /\
    exists t, ins = JumpZeroInstruction t /\ k < t < n /\
      full !! Z.to_nat t = Some "]"%char /\
      m !! t = Some (JumpNonzeroInstruction k)) \/
   (full !! Z.to_nat k = Some "]"%char /\
    exists t, ins = JumpNonzeroInstruction t /\ 0 <= t < k /\
      full !! Z.to_nat t = Some "["%char /\
      m !! t = Some (JumpZeroInstruction k))).

(** What the loop of [build_bracket_map] keeps true of its stack and map
    before index [i]: the stack holds distinct indices of ["["]s that have
    no entry yet; every entry is paired; every ["]"] passed has an entry
    and every ["["] passed has one or is on the stack. *)
Definition build_invariant (full : list ascii) (i : Z) (st : list Z)
    (m : bracket_map_t) : Prop :=
  NoDup st /\
  (forall j, j ∈ st ->
     0 <= j < i /\ full !! Z.to_nat j = Some "["%char /\ m !! j = None) /\
  (forall k ins, m !! k = Some ins -> entry_paired full i m k ins) /\
  (forall k, 0 <= k < i -> full !! Z.to_nat k = Some "]"%char ->
     is_Some (m !! k)) /\
  (forall k, 0 <= k < i -> full !! Z.to_nat k = Some "["%char ->
     is_Some (m !! k) \/ k ∈ st).

(** * Properties *)

(** ** The model on small runs *)

Example run_two_increments :
  (fun r => match r with
            | Some (Ok e) =>
                (fun st => (data_counter st, program_counter st, take 2 (field st)))
                  <$> final_state e
            | _ => None
            end)
    (main 2 "bf" ["two.bf"%string] (file "+ +") {| cin := []; cout := [] |})
  = Some (0, 2, [2; 0]).
Proof. vm_compute. reflexivity. Qed.

Example run_write_one :
  status_and_output
    (main 2 "bf" ["one.bf"%string] (file "+.") {| cin := []; cout := [] |})
  = Some (0, [1]).
Proof. vm_compute. reflexivity. Qed.

Example run_hello_world :
  status_and_output
    (main 1000 "bf" ["hello.bf"%string] (file hello_world) {| cin := []; cout := [] |})
  = Some (0, [72; 101; 108; 108; 111; 32; 87; 111; 114; 108; 100; 33; 10]).
Proof. vm_compute. reflexivity. Qed.

Example run_echo_with_comment :
  status_and_output
    (main 10 "bf" ["echo.bf"%string] (file "read , then write . twice .")
       {| cin := [65; 66]; cout := [] |})
  = Some (0, [65; 65]).
Proof. vm_compute. reflexivity. Qed.

Example run_read_at_end_of_input :
  status_and_output
    (main 10 "bf" ["eof.bf"%string] (file ",.") {| cin := []; cout := [] |})
  = Some (0, [255]).
Proof. vm_compute. reflexivity. Qed.

Example run_empty_loop_on_zero :
  balanced "[]" = true /\
  status_and_output
    (main 1 "bf" ["loop.bf"%string] (file "[]") {| cin := []; cout := [] |})
  = Some (0, []).
Proof. split; vm_compute; reflexivity. Qed.

Example run_left_of_tape :
  main 10 "bf" ["left.bf"%string] (file "<+") {| cin := []; cout := [] |}
  = Some (Raise (undefined FieldBounds)).
Proof. vm_compute. reflexivity. Qed.

Example hex_outputter_writes_two_digits :
  out HexOutputter 171 {| cin := []; cout := [] |}
  = Ok (tt, {| cin := []; cout := [97; 98] |}).
Proof. reflexivity. Qed.

(** ** Cells and instructions *)

Ltac unfold_M :=
  unfold mbind, mret, M_bind, M_ret, lift in *.

Lemma in_field_spec (st : BrainfuckState) :
  in_field st = true <->
  0 <= data_counter st /\ (Z.to_nat (data_counter st) < length (field st))%nat.
Proof.
  unfold in_field. rewrite andb_true_iff, Z.leb_le, Z.ltb_lt. lia.
Qed.

Lemma read_cell_Ok (st : BrainfuckState) (v : Z) :
  read_cell st = Ok v <->
  in_field st = true /\ field st !! Z.to_nat (data_counter st) = Some v.
Proof.
  unfold read_cell. destruct (in_field st) eqn:Hin.
  - destruct (field st !! Z.to_nat (data_counter st)) as [w|] eqn:Hw.
    + split; [intros [= ->]; auto | intros [_ [= ->]]; reflexivity].
    + split; [discriminate | intros [_ ?]; discriminate].
  - split; [discriminate | intros [? _]; discriminate].
Qed.

Lemma in_field_read (st : BrainfuckState) :
  in_field st = true -> exists v, read_cell st = Ok v.
Proof.
  intros Hin. destruct (proj1 (in_field_spec st) Hin) as [_ Hlt].
  destruct (lookup_lt_is_Some_2 _ _ Hlt) as [v Hv].
  exists v. apply read_cell_Ok. auto.
Qed.

Lemma read_after_write (st st' : BrainfuckState) (v : Z) :
  write_cell st v = Ok st' -> read_cell st' = Ok v.
Proof.
  unfold write_cell. destruct (in_field st) eqn:Hin; [|discriminate].
  intros [= <-]. apply read_cell_Ok.
  destruct (proj1 (in_field_spec st) Hin) as [Hnn Hlt]. split.
  - apply in_field_spec. simpl. rewrite length_insert. auto.
  - simpl. apply list_lookup_insert_eq. exact Hlt.
Qed.


Lemma write_cell_Ok (st : BrainfuckState) (v : Z) :
  in_field st = true ->
  write_cell st v =
    Ok (with_field st (<[Z.to_nat (data_counter st) := v]> (field st))).
Proof. intros Hin. unfold write_cell. rewrite Hin. reflexivity. Qed.

Lemma wrap_u8_succ (v : Z) :
  0 <= v < 256 -> wrap_u8 (v + 1) = if v =? 255 then 0 else v + 1.
Proof.
  intros Hv. unfold wrap_u8. destruct (Z.eqb_spec v 255) as [->|Hne].
  - reflexivity.
  - apply Z.mod_small. lia.
Qed.

Lemma wrap_u8_pred (v : Z) :
  0 <= v < 256 -> wrap_u8 (v - 1) = if v =? 0 then 255 else v - 1.
Proof.
  intros Hv. unfold wrap_u8. destruct (Z.eqb_spec v 0) as [->|Hne].
  - reflexivity.
  - apply Z.mod_small. lia.
Qed.

(** C5: cell arithmetic wraps modulo 256 in both directions. On a state
    whose current cell holds the byte [v], increment-cell leaves 0 there
    when [v] is 255 and [v + 1] otherwise; decrement-cell leaves 255 there
    when [v] is 0 and [v - 1] otherwise. Neither touches the console. *)
Theorem cell_arithmetic_wraps (st : BrainfuckState) (con : Console) (v : Z) :
  read_cell st = Ok v ->
  0 <= v < 256 ->
  (exists st', execute IncDataInstruction st con = Ok (st', con) /\
     read_cell st' = Ok (if v =? 255 then 0 else v + 1)) /\
  (exists st', execute DecDataInstruction st con = Ok (st', con) /\
     read_cell st' = Ok (if v =? 0 then 255 else v - 1)).
Proof.
  intros Hread Hv.
  destruct (proj1 (read_cell_Ok st v) Hread) as [Hin _].
  split; eexists; simpl; unfold_M; rewrite Hread, (write_cell_Ok _ _ Hin);
    (split; [reflexivity|]).
  - rewrite <- wrap_u8_succ by exact Hv.
    apply read_after_write with st, write_cell_Ok, Hin.
  - rewrite <- wrap_u8_pred by exact Hv.
    apply read_after_write with st, write_cell_Ok, Hin.
Qed.

Lemma cell_arithmetic_wraps_witness :
  (exists st', execute IncDataInstruction
                 {| data_counter := 1; program_counter := 0; field := [7; 255; 0] |}
                 {| cin := []; cout := [] |} = Ok (st', {| cin := []; cout := [] |}) /\
     read_cell st' = Ok 0) /\
  (exists st', execute DecDataInstruction
                 {| data_counter := 2; program_counter := 0; field := [7; 255; 0] |}
                 {| cin := []; cout := [] |} = Ok (st', {| cin := []; cout := [] |}) /\
     read_cell st' = Ok 255).
Proof.
  split.
  - apply (cell_arithmetic_wraps
             {| data_counter := 1; program_counter := 0; field := [7; 255; 0] |}
             {| cin := []; cout := [] |} 255); [reflexivity | lia].
  - apply (cell_arithmetic_wraps
             {| data_counter := 2; program_counter := 0; field := [7; 255; 0] |}
             {| cin := []; cout := [] |} 0); [reflexivity | lia].
Defined.

Lemma execute_defined (ins : Instruction) (st : BrainfuckState) (con : Console) :
  defined_on ins st = true -> is_ok (execute ins st con) = true.
Proof.
  unfold defined_on. destruct ins; simpl; try reflexivity; intros Hin;
    destruct (in_field_read st Hin) as [v Hv]; unfold_M;
    rewrite ?Hv, ?(write_cell_Ok _ _ Hin); try reflexivity.
  - destruct v; reflexivity.
  - destruct v; reflexivity.
  - destruct i. unfold in_, getchar. unfold_M.
    destruct (cin con); rewrite (write_cell_Ok _ _ Hin); reflexivity.
  - destruct o; reflexivity.
Qed.

Lemma execute_fault (ins : Instruction) (st : BrainfuckState) (con : Console) (f : Fault) :
  execute ins st con = Raise f -> f = undefined FieldBounds /\ in_field st = false.
Proof.
  destruct (in_field st) eqn:Hin.
  - intros Hf. pose proof (execute_defined ins st con) as Hd.
    unfold defined_on in Hd. rewrite Hin, orb_true_r, Hf in Hd.
    discriminate (Hd eq_refl).
  - destruct ins; simpl; unfold_M; unfold read_cell, write_cell;
      rewrite ?Hin; try discriminate; try (intros [= <-]; auto).
    destruct i. unfold in_, getchar. unfold_M.
    destruct (cin con); intros [= <-]; auto.
Qed.

(** What a result of [execute] leaves alone. *)
Lemma execute_frame (ins : Instruction) (st st' : BrainfuckState)
    (con con' : Console) :
  execute ins st con = Ok (st', con') ->
  (is_jump ins = false -> program_counter st' = program_counter st) /\
  (program_counter st' <> program_counter st ->
     exists t v, read_cell st = Ok v /\ program_counter st' = t /\
       ((ins = JumpZeroInstruction t /\ v = 0) \/
        (ins = JumpNonzeroInstruction t /\ v <> 0))) /\
  (is_jump ins = true -> data_counter st' = data_counter st /\
     field st' = field st /\ con' = con) /\
  (moves_data_counter ins = true ->
     field st' = field st /\ con' = con /\
     forall st0 con0, is_ok (execute ins st0 con0) = true) /\
  (changes_cell ins = true ->
     data_counter st' = data_counter st /\ con' = con /\
     length (field st') = length (field st) /\
     forall k : nat, k <> Z.to_nat (data_counter st) ->
       field st' !! k = field st !! k).
Proof.
  intros Hex.
  destruct ins; simpl in *; unfold_M.
  1,2: injection Hex as <- <-; repeat split; try discriminate; auto;
       simpl; intros Hne; contradiction Hne; reflexivity.
  1,2: destruct (read_cell st) as [v|] eqn:Hv; [|discriminate];
       unfold write_cell in Hex; destruct (in_field st); [|discriminate];
       injection Hex as <- <-; repeat split; try discriminate; auto; simpl;
       [ intros Hne; contradiction Hne; reflexivity
       | apply length_insert
       | intros k Hk; apply list_lookup_insert_ne; auto ].
  - destruct (read_cell st) as [v|] eqn:Hv; [|discriminate].
    destruct (Z.eq_dec v 0) as [->|Hnz].
    + injection Hex as <- <-.
      repeat split; try discriminate; auto; simpl.
      intros _. exists m_to, 0. auto.
    + assert (Hst : (st', con') = (st, con)) by (destruct v; simpl in Hex; congruence).
      injection Hst as -> ->.
      repeat split; try discriminate; auto.
      intros Hne. contradiction Hne. reflexivity.
  - destruct (read_cell st) as [v|] eqn:Hv; [|discriminate].
    destruct (Z.eq_dec v 0) as [->|Hnz].
    + injection Hex as <- <-.
      repeat split; try discriminate; auto.
      intros Hne. contradiction Hne. reflexivity.
    + assert (Hst : (st', con') = (with_program_counter st m_to, con))
        by (destruct v; simpl in Hex; congruence).
      injection Hst as -> ->.
      repeat split; try discriminate; auto; simpl.
      intros _. exists m_to, v. auto.
  - destruct i. unfold in_, getchar in Hex. unfold_M.
    destruct (cin con); unfold write_cell in Hex;
      destruct (in_field st); try discriminate;
      injection Hex as <- <-; repeat split; try discriminate; auto; simpl;
      intros Hne; contradiction Hne; reflexivity.
  - destruct (read_cell st) as [v|] eqn:Hv; [|discriminate].
    destruct o; simpl in Hex; unfold putbytes in Hex;
      injection Hex as <- <-; repeat split; try discriminate; auto; simpl;
      intros Hne; contradiction Hne; reflexivity.
Qed.

(** C9: frame of the instructions. On every state where it is defined
    (any state for the two cursor moves, a data counter inside the tape
    for the others) [execute] comes to a result in which: a non-jump
    instruction has left the program counter as it was; a program counter
    that changed was assigned by a jump whose condition held; a jump has
    left the data counter, the tape and the console alone; the two cursor
    moves have left the tape and the console alone; increment and
    decrement have left both counters, the console, the length of the
    tape and every cell but the current one alone. *)
Theorem instruction_frame (ins : Instruction) (st : BrainfuckState)
    (con : Console) :
  defined_on ins st = true ->
  exists st' con',
    execute ins st con = Ok (st', con') /\
    (is_jump ins = false -> program_counter st' = program_counter st) /\
    (program_counter st' <> program_counter st ->
       exists t v, read_cell st = Ok v /\ program_counter st' = t /\
         ((ins = JumpZeroInstruction t /\ v = 0) \/
          (ins = JumpNonzeroInstruction t /\ v <> 0))) /\
    (is_jump ins = true -> data_counter st' = data_counter st /\
       field st' = field st /\ con' = con) /\
    (moves_data_counter ins = true ->
       field st' = field st /\ con' = con /\
       forall st0 con0, is_ok (execute ins st0 con0) = true) /\
    (changes_cell ins = true ->
       data_counter st' = data_counter st /\ con' = con /\
       length (field st') = length (field st) /\
       forall k : nat, k <> Z.to_nat (data_counter st) ->
         field st' !! k = field st !! k).
Proof.
  intros Hdef. pose proof (execute_defined ins st con Hdef) as Hok.
  destruct (execute ins st con) as [[st' con']|f] eqn:Hex; [|discriminate].
  exists st', con'. split; [reflexivity|]. exact (execute_frame _ _ _ _ _ Hex).
Qed.

Lemma instruction_frame_witness :
  exists st' con',
    execute IncDataInstruction sample_state sample_console = Ok (st', con') /\
    program_counter st' = program_counter sample_state /\
    field st' !! 0%nat = Some 7.
Proof.
  destruct (instruction_frame IncDataInstruction sample_state sample_console
              eq_refl) as (st' & con' & Hex & Hpc & _ & _ & _ & Hcell).
  exists st', con'. split; [exact Hex|]. split; [apply Hpc; reflexivity|].
  destruct (Hcell eq_refl) as (_ & _ & _ & Hother).
  rewrite (Hother 0%nat); [reflexivity | discriminate].
Defined.

(** ** Source filtering *)

Lemma chars_of_list (l : list ascii) : chars (string_of_list_ascii l) = l.
Proof. apply list_ascii_of_string_of_list_ascii. Qed.

Lemma string_of_chars (s : string) : string_of_list_ascii (chars s) = s.
Proof. apply string_of_list_ascii_of_string. Qed.

Lemma filter_all (f : ascii -> bool) (l : list ascii) :
  forallb f l = true -> List.filter f l = l.
Proof.
  induction l as [|c l IH]; simpl; [reflexivity|].
  intros [Hc Hl]%andb_true_iff. rewrite Hc, IH by exact Hl. reflexivity.
Qed.

Lemma forallb_filter_same (f : ascii -> bool) (l : list ascii) :
  forallb f (List.filter f l) = true.
Proof.
  induction l as [|c l IH]; simpl; [reflexivity|].
  destruct (f c) eqn:Hc; simpl; [rewrite Hc|]; exact IH.
Qed.

(** C7: source filtering is idempotent. Filtering any raw input twice gives
    what filtering it once gives, and a text made only of the eight
    operation characters is returned as it is. *)
Theorem filter_source_idempotent (raw : string) :
  filter_source (filter_source raw) = filter_source raw /\
  (forallb is_bf_char (chars raw) = true -> filter_source raw = raw).
Proof.
  unfold filter_source. split.
  - rewrite chars_of_list, filter_all; [reflexivity|].
    apply forallb_filter_same.
  - intros Hall. rewrite filter_all by exact Hall. apply string_of_chars.
Qed.

Lemma filter_source_idempotent_witness :
  filter_source "+[->,.<]"%string = "+[->,.<]"%string.
Proof.
  apply (proj2 (filter_source_idempotent "+[->,.<]"%string)). reflexivity.
Defined.

(** ** [main] without arguments *)

(** C8: with fewer than two [argv] entries [main] writes the usage line to
    [std::cerr] and returns 1; no file is opened, no state is created, no
    instruction runs and the console is left as it was. *)
Theorem main_usage (fuel : nat) (argv0 : string) (args : list string)
    (fs : string -> option string) (con : Console) :
  (length (argv0 :: args) < 2)%nat ->
  main fuel argv0 args fs con =
    Some (Ok {| exit_status := 1;
                err_stream := "Usage: " +:+ argv0 +:+ " [bf-file]" +:+ endl;
                opened := [];
                final_state := None;
                final_console := con |}).
Proof.
  intros Hargc. destruct args as [|a args]; [reflexivity|].
  simpl in Hargc. lia.
Qed.

Lemma main_usage_witness :
  main 0 "bf" [] (fun _ => Some "+[-]"%string) sample_console =
    Some (Ok {| exit_status := 1;
                err_stream := "Usage: bf [bf-file]" +:+ endl;
                opened := [];
                final_state := None;
                final_console := sample_console |}).
Proof.
  apply (main_usage 0 "bf" [] (fun _ => Some "+[-]"%string) sample_console).
  simpl. lia.
Defined.

(** ** Nested bracket structure *)

Section Nesting.
Variables up down : ascii.
Hypothesis up_down : up <> down.

Local Abbreviation Nested := (Nested up down).

Lemma Nested_app (a b : list ascii) : Nested a -> Nested b -> Nested (a ++ b).
Proof.
  intros Ha Hb. induction Ha as [|c cs Hu Hd _ IH|inner rest Hinner _ _ IH]; simpl.
  - exact Hb.
  - apply Nested_skip; assumption.
  - rewrite <- app_assoc. simpl. apply Nested_pair; assumption.
Qed.

Lemma eqb_up_down : (down =? up)%char = false.
Proof. apply Ascii.eqb_neq. congruence. Qed.

Lemma nearest_up (cs : list ascii) (d : nat) :
  nearest up down (up :: cs) d = S <$> nearest up down cs (S d).
Proof. simpl. rewrite Ascii.eqb_refl. reflexivity. Qed.

Lemma nearest_down_0 (cs : list ascii) :
  nearest up down (down :: cs) 0 = Some 0%nat.
Proof. simpl. rewrite eqb_up_down, Ascii.eqb_refl. reflexivity. Qed.

Lemma nearest_down_S (cs : list ascii) (d : nat) :
  nearest up down (down :: cs) (S d) = S <$> nearest up down cs d.
Proof. simpl. rewrite eqb_up_down, Ascii.eqb_refl. reflexivity. Qed.

Lemma nearest_other (c : ascii) (cs : list ascii) (d : nat) :
  c <> up -> c <> down ->
  nearest up down (c :: cs) d = S <$> nearest up down cs d.
Proof.
  intros Hu Hd. simpl.
  rewrite (proj2 (Ascii.eqb_neq c up) Hu), (proj2 (Ascii.eqb_neq c down) Hd).
  reflexivity.
Qed.

(** The search walks through a nested text without stopping in it. *)
Lemma nearest_through (b : list ascii) :
  Nested b -> forall (rest : list ascii) (d : nat),
  nearest up down (b ++ rest) d =
    (fun k => length b + k)%nat <$> nearest up down rest d.
Proof.
  induction 1 as [|c cs Hu Hd _ IH|inner tail _ IH1 _ IH2]; intros rest d.
  - simpl. destruct (nearest up down rest d); reflexivity.
  - simpl app. rewrite nearest_other, IH by assumption.
    destruct (nearest up down rest d); reflexivity.
  - simpl app. rewrite nearest_up, <- app_assoc, IH1. simpl app.
    rewrite nearest_down_S, IH2.
    destruct (nearest up down rest d); simpl; [|reflexivity].
    f_equal. rewrite length_app. simpl. lia.
Qed.

(** What was found is still found when more text follows. *)
Lemma nearest_app_Some (cs rest : list ascii) (d k : nat) :
  nearest up down cs d = Some k -> nearest up down (cs ++ rest) d = Some k.
Proof.
  revert d k. induction cs as [|c cs IH]; intros d k; simpl; [discriminate|].
  destruct (c =? up)%char.
  - destruct (nearest up down cs (S d)) as [k'|] eqn:Hk; [|discriminate].
    rewrite (IH _ _ Hk). auto.
  - destruct (c =? down)%char.
    + destruct d as [|d]; [auto|].
      destruct (nearest up down cs d) as [k'|] eqn:Hk; [|discriminate].
      rewrite (IH _ _ Hk). auto.
    + destruct (nearest up down cs d) as [k'|] eqn:Hk; [|discriminate].
      rewrite (IH _ _ Hk). auto.
Qed.

Lemma nearest_lt (cs : list ascii) (d k : nat) :
  nearest up down cs d = Some k -> (k < length cs)%nat.
Proof.
  revert d k. induction cs as [|c cs IH]; intros d k; simpl; [discriminate|].
  destruct (c =? up)%char.
  - destruct (nearest up down cs (S d)) as [k'|] eqn:Hk; [|discriminate].
    intros [= <-]. apply IH in Hk. lia.
  - destruct (c =? down)%char.
    + destruct d as [|d]; [intros [= <-]; lia|].
      destruct (nearest up down cs d) as [k'|] eqn:Hk; [|discriminate].
      intros [= <-]. apply IH in Hk. lia.
    + destruct (nearest up down cs d) as [k'|] eqn:Hk; [|discriminate].
      intros [= <-]. apply IH in Hk. lia.
Qed.
End Nesting.

Lemma Nested_rev (up down : ascii) (b : list ascii) :
  Nested up down b -> Nested down up (rev b).
Proof.
  induction 1 as [|c cs Hu Hd _ IH|inner rest _ IH1 _ IH2]; simpl.
  - constructor.
  - apply Nested_app; [exact IH|]. apply Nested_skip; auto. constructor.
  - rewrite rev_app_distr. simpl. rewrite <- !app_assoc. simpl.
    apply Nested_app; [exact IH2|].
    apply (Nested_pair down up (rev inner) []); [exact IH1 | constructor].
Qed.

(** ** From nesting depth to nested structure *)

Lemma Opened_skip (c : ascii) (cs : list ascii) :
  c <> "["%char -> c <> "]"%char -> Opened cs -> Opened (c :: cs).
Proof.
  intros Hu Hd [b Hb|b u Hb Hu'].
  - apply Opened_nested, Nested_skip; assumption.
  - apply (Opened_open (c :: b) u); [apply Nested_skip|]; assumption.
Qed.

Lemma Opened_pair (inner rest : list ascii) :
  Balanced inner -> Opened rest ->
  Opened ("["%char :: inner ++ "]"%char :: rest).
Proof.
  intros Hi [b Hb|b u Hb Hu].
  - apply Opened_nested, Nested_pair; assumption.
  - apply (Opened_open ("["%char :: inner ++ "]"%char :: b) u) in Hu.
    + simpl in Hu. rewrite <- app_assoc in Hu. exact Hu.
    + apply Nested_pair; assumption.
Qed.

Lemma scan_open (cs : list ascii) (d : nat) :
  scan ("["%char :: cs) d = scan cs (S d).
Proof. reflexivity. Qed.

Lemma scan_close (cs : list ascii) (d : nat) :
  scan ("]"%char :: cs) d = match d with O => None | S d' => scan cs d' end.
Proof. reflexivity. Qed.

Lemma scan_other (c : ascii) (cs : list ascii) (d : nat) :
  c <> "["%char -> c <> "]"%char -> scan (c :: cs) d = scan cs d.
Proof.
  intros Hu Hd. simpl.
  rewrite (proj2 (Ascii.eqb_neq _ _) Hu), (proj2 (Ascii.eqb_neq _ _) Hd).
  reflexivity.
Qed.

(** Case analysis on a character as the builders' loops see it. *)
Lemma bracket_cases (c : ascii) :
  c = "["%char \/ c = "]"%char \/ (c <> "["%char /\ c <> "]"%char).
Proof.
  destruct (Ascii.eqb_spec c "["); [auto|].
  destruct (Ascii.eqb_spec c "]"); auto.
Qed.

(** The depth is the same after a nested text as before it. *)
Lemma scan_through (b : list ascii) :
  Balanced b -> forall (rest : list ascii) (d : nat),
  scan (b ++ rest) d = scan rest d.
Proof.
  induction 1 as [|c cs Hu Hd _ IH|inner tail _ IH1 _ IH2]; intros rest d.
  - reflexivity.
  - simpl app. rewrite scan_other by assumption. apply IH.
  - simpl app. rewrite scan_open, <- app_assoc, IH1. simpl app.
    rewrite scan_close. apply IH2.
Qed.

Lemma Balanced_scan (b : list ascii) (d : nat) :
  Balanced b -> scan b d = Some d.
Proof.
  intros Hb. rewrite <- (app_nil_r b). rewrite scan_through by exact Hb.
  reflexivity.
Qed.

(** A text scanned from depth [d] either closes the bracket that was open
    when it was entered, after a nested stretch, or never comes back
    below [d]. *)
Lemma scan_shape (n : nat) :
  forall (cs : list ascii) (d e : nat),
  (length cs <= n)%nat -> scan cs d = Some e ->
  (exists d' l1 l2, d = S d' /\ cs = l1 ++ "]"%char :: l2 /\ Balanced l1 /\
     scan l2 d' = Some e) \/
  (Opened cs /\ (d <= e)%nat /\ (e = d -> Balanced cs)).
Proof.
  induction n as [|n IH]; intros cs d e Hlen Hscan.
  - destruct cs; [|simpl in Hlen; lia]. injection Hscan as <-.
    right. split; [apply Opened_nested; constructor|].
    split; [lia|]. intros _. constructor.
  - destruct cs as [|c cs].
    { injection Hscan as <-. right. split; [apply Opened_nested; constructor|].
      split; [lia|]. intros _. constructor. }
    simpl in Hlen.
    destruct (bracket_cases c) as [->|[->|[Hu Hd]]].
    + rewrite scan_open in Hscan.
      destruct (IH cs (S d) e ltac:(lia) Hscan)
        as [(d' & l1 & l2 & [= <-] & -> & Hl1 & Hl2)|(Hop & Hle & _)].
      * rewrite length_app in Hlen. simpl in Hlen.
        destruct (IH l2 d e ltac:(lia) Hl2)
          as [(d' & m1 & m2 & -> & -> & Hm1 & Hm2)|(Hop & Hle & Hbal)].
        -- left. exists d', ("["%char :: l1 ++ "]"%char :: m1), m2.
           repeat split; auto.
           ++ simpl. rewrite <- app_assoc. reflexivity.
           ++ apply Nested_pair; assumption.
        -- right. repeat split; auto.
           ++ apply Opened_pair; assumption.
           ++ intros He. apply Nested_pair; auto.
      * right. repeat split; [|lia|lia].
        apply (Opened_open [] cs); [constructor | exact Hop].
    + rewrite scan_close in Hscan. destruct d as [|d']; [discriminate|].
      left. exists d', [], cs. repeat split; auto. constructor.
    + rewrite scan_other in Hscan by assumption.
      destruct (IH cs d e ltac:(lia) Hscan)
        as [(d' & l1 & l2 & -> & -> & Hl1 & Hl2)|(Hop & Hle & Hbal)].
      * left. exists d', (c :: l1), l2. repeat split; auto.
        apply Nested_skip; assumption.
      * right. repeat split; auto.
        -- apply Opened_skip; assumption.
        -- intros He. apply Nested_skip; auto.
Qed.

Lemma scan_Opened (cs : list ascii) (e : nat) :
  scan cs 0 = Some e -> Opened cs.
Proof.
  intros Hscan.
  destruct (scan_shape (length cs) cs 0 e (Nat.le_refl _) Hscan)
    as [(d' & _ & _ & [=] & _)|(Hop & _)]; exact Hop.
Qed.

Lemma scan_Balanced (cs : list ascii) :
  scan cs 0 = Some 0%nat -> Balanced cs.
Proof.
  intros Hscan.
  destruct (scan_shape (length cs) cs 0 0 (Nat.le_refl _) Hscan)
    as [(d' & _ & _ & [=] & _)|(_ & _ & Hbal)]; auto.
Qed.

Lemma balanced_Balanced (code : string) :
  balanced code = true <-> Balanced (chars code).
Proof.
  unfold balanced. split.
  - destruct (scan (chars code) 0) as [[|d]|] eqn:Hscan; try discriminate.
    intros _. apply scan_Balanced, Hscan.
  - intros Hb. rewrite (Balanced_scan _ 0 Hb). reflexivity.
Qed.

(** ** Partners of brackets under concatenation *)

Lemma matching_close_app_l (cs rest : list ascii) (k j : nat) :
  matching_close cs k = Some j -> matching_close (cs ++ rest) k = Some j.
Proof.
  unfold matching_close. rewrite drop_app.
  destruct (nearest "[" "]" (drop (S k) cs) 0) as [x|] eqn:Hx; [|discriminate].
  intros [= <-]. rewrite (nearest_app_Some _ _ _ _ _ _ Hx). reflexivity.
Qed.

Lemma matching_close_app_r (pre cs : list ascii) (k j : nat) :
  matching_close cs k = Some j ->
  matching_close (pre ++ cs) (length pre + k) = Some (length pre + j)%nat.
Proof.
  unfold matching_close.
  replace (S (length pre + k)) with (length pre + S k)%nat by lia.
  rewrite drop_app_add.
  destruct (nearest "[" "]" (drop (S k) cs) 0) as [x|]; [|discriminate].
  intros [= <-]. simpl. f_equal. lia.
Qed.

Lemma matching_open_app_l (cs rest : list ascii) (j : nat) :
  (j <= length cs)%nat -> matching_open (cs ++ rest) j = matching_open cs j.
Proof.
  intros Hj. unfold matching_open. rewrite take_app_le by exact Hj. reflexivity.
Qed.

Lemma matching_open_app_r (pre cs : list ascii) (j k : nat) :
  matching_open cs j = Some k ->
  matching_open (pre ++ cs) (length pre + j) = Some (length pre + k)%nat.
Proof.
  unfold matching_open. rewrite take_app_add, rev_app_distr.
  destruct (nearest "]" "[" (rev (take j cs)) 0) as [x|] eqn:Hx; [|discriminate].
  intros [= <-]. rewrite (nearest_app_Some _ _ _ _ _ _ Hx). simpl. f_equal.
  apply nearest_lt in Hx. rewrite length_rev, length_take in Hx. lia.
Qed.

Lemma matching_close_pair (inner rest : list ascii) :
  Balanced inner ->
  matching_close ("["%char :: inner ++ "]"%char :: rest) 0 = Some (S (length inner)).
Proof.
  intros Hb. unfold matching_close. simpl drop. rewrite drop_0.
  rewrite (nearest_through "[" "]") by (discriminate || exact Hb).
  rewrite nearest_down_0 by discriminate. simpl. f_equal. lia.
Qed.

Lemma matching_open_pair (inner rest : list ascii) :
  Balanced inner ->
  matching_open ("["%char :: inner ++ "]"%char :: rest) (S (length inner)) = Some 0%nat.
Proof.
  intros Hb. unfold matching_open.
  change ("["%char :: inner ++ "]"%char :: rest)
    with (("["%char :: inner) ++ "]"%char :: rest).
  rewrite take_app_length' by reflexivity. simpl rev.
  rewrite (nearest_through "]" "[") by (discriminate || apply Nested_rev, Hb).
  rewrite nearest_down_0 by discriminate. simpl. f_equal.
  rewrite length_rev. lia.
Qed.

Lemma matching_close_lt (cs : list ascii) (k j : nat) :
  matching_close cs k = Some j -> (k < j < length cs)%nat.
Proof.
  unfold matching_close.
  destruct (nearest "[" "]" (drop (S k) cs) 0) as [x|] eqn:Hx; [|discriminate].
  intros [= <-]. apply nearest_lt in Hx. rewrite length_drop in Hx. lia.
Qed.

Lemma matching_open_lt (cs : list ascii) (j k : nat) :
  matching_open cs j = Some k -> (k < j)%nat.
Proof.
  unfold matching_open.
  destruct (nearest "]" "[" (rev (take j cs)) 0) as [x|] eqn:Hx; [|discriminate].
  intros [= <-]. apply nearest_lt in Hx.
  rewrite length_rev, length_take in Hx. lia.
Qed.

(** ** What the bracket map holds after a nested stretch *)

Lemma resolves_nil (i : Z) (m : bracket_map_t) : resolves [] i m.
Proof. split; intros k Hk; discriminate. Qed.

Lemma resolves_ext (b : list ascii) (i : Z) (m m' : bracket_map_t) :
  resolves b i m ->
  (forall k, i <= k < i + Z.of_nat (length b) -> m' !! k = m !! k) ->
  resolves b i m'.
Proof.
  intros [Hopen Hclose] Hsame. split.
  - intros k Hk. destruct (Hopen k Hk) as (j & Hj & Ho & Hm).
    exists j. do 2 (split; [assumption|]). rewrite Hsame; [exact Hm|].
    apply lookup_lt_Some in Hk. lia.
  - intros j Hj. destruct (Hclose j Hj) as (k & Hk & Hc & Hm).
    exists k. do 2 (split; [assumption|]). rewrite Hsame; [exact Hm|].
    apply lookup_lt_Some in Hj. lia.
Qed.

Lemma resolves_app (a b : list ascii) (i : Z) (m : bracket_map_t) :
  resolves a i m -> resolves b (i + Z.of_nat (length a)) m ->
  resolves (a ++ b) i m.
Proof.
  intros [Ha1 Ha2] [Hb1 Hb2]. split.
  - intros k Hk. destruct (decide (k < length a)%nat) as [Hlt|Hge].
    + rewrite lookup_app_l in Hk by exact Hlt.
      destruct (Ha1 k Hk) as (j & Hj & Ho & Hm). exists j.
      split; [apply matching_close_app_l, Hj|]. split; [|exact Hm].
      apply matching_close_lt in Hj.
      rewrite matching_open_app_l by lia. exact Ho.
    + rewrite lookup_app_r in Hk by lia.
      destruct (Hb1 _ Hk) as (j & Hj & Ho & Hm). exists (length a + j)%nat.
      replace k with (length a + (k - length a))%nat at 1 2 by lia.
      split; [apply matching_close_app_r, Hj|].
      split; [apply matching_open_app_r, Ho|].
      replace (i + Z.of_nat k) with
        (i + Z.of_nat (length a) + Z.of_nat (k - length a)) by lia.
      rewrite Hm. do 2 f_equal. lia.
  - intros j Hj. destruct (decide (j < length a)%nat) as [Hlt|Hge].
    + rewrite lookup_app_l in Hj by exact Hlt.
      destruct (Ha2 j Hj) as (k & Hk & Hc & Hm). exists k.
      split; [rewrite matching_open_app_l by lia; exact Hk|].
      split; [apply matching_close_app_l, Hc | exact Hm].
    + rewrite lookup_app_r in Hj by lia.
      destruct (Hb2 _ Hj) as (k & Hk & Hc & Hm). exists (length a + k)%nat.
      replace j with (length a + (j - length a))%nat at 1 2 by lia.
      split; [apply matching_open_app_r, Hk|].
      split; [apply matching_close_app_r, Hc|].
      replace (i + Z.of_nat j) with
        (i + Z.of_nat (length a) + Z.of_nat (j - length a)) by lia.
      rewrite Hm. do 2 f_equal. lia.
Qed.

Lemma resolves_other (c : ascii) (i : Z) (m : bracket_map_t) :
  c <> "["%char -> c <> "]"%char -> resolves [c] i m.
Proof.
  intros Hu Hd. split; intros [|k] Hk; simpl in Hk; try discriminate;
    injection Hk as ->; contradiction.
Qed.

Lemma resolves_pair (inner : list ascii) (i : Z) (m : bracket_map_t) :
  Balanced inner ->
  resolves inner (i + 1) m ->
  m !! i = Some (JumpZeroInstruction (i + 1 + Z.of_nat (length inner))) ->
  m !! (i + 1 + Z.of_nat (length inner)) = Some (JumpNonzeroInstruction i) ->
  resolves ("["%char :: inner ++ ["]"%char]) i m.
Proof.
  intros Hb [Hin1 Hin2] Hopen Hclose. split.
  - intros [|k] Hk.
    + exists (S (length inner)).
      split; [apply matching_close_pair, Hb|].
      split; [apply matching_open_pair, Hb|].
      rewrite Z.add_0_r, Hopen. do 2 f_equal. lia.
    + simpl in Hk. destruct (decide (k < length inner)%nat) as [Hlt|Hge].
      * rewrite lookup_app_l in Hk by exact Hlt.
        destruct (Hin1 k Hk) as (j & Hj & Ho & Hm). exists (S j).
        split; [|split].
        -- apply (matching_close_app_r ["["%char] (inner ++ ["]"%char]) k j).
           apply matching_close_app_l, Hj.
        -- apply (matching_open_app_r ["["%char] (inner ++ ["]"%char]) j k).
           apply matching_close_lt in Hj.
           rewrite matching_open_app_l by lia. exact Ho.
        -- replace (i + Z.of_nat (S k)) with (i + 1 + Z.of_nat k) by lia.
           rewrite Hm. do 2 f_equal. lia.
      * rewrite lookup_app_r in Hk by lia.
        destruct (k - length inner)%nat; simpl in Hk; discriminate.
  - intros [|j] Hj; [discriminate|].
    simpl in Hj. destruct (decide (j < length inner)%nat) as [Hlt|Hge].
    + rewrite lookup_app_l in Hj by exact Hlt.
      destruct (Hin2 j Hj) as (k & Hk & Hc & Hm). exists (S k).
      split; [|split].
      * apply (matching_open_app_r ["["%char] (inner ++ ["]"%char]) j k).
        rewrite matching_open_app_l by lia. exact Hk.
      * apply (matching_close_app_r ["["%char] (inner ++ ["]"%char]) k j).
        apply matching_close_app_l, Hc.
      * replace (i + Z.of_nat (S j)) with (i + 1 + Z.of_nat j) by lia.
        rewrite Hm. do 2 f_equal. lia.
    + rewrite lookup_app_r in Hj by lia.
      destruct (j - length inner)%nat as [|x] eqn:Hx; simpl in Hj;
        [|destruct x; discriminate].
      assert (j = length inner) as -> by lia.
      exists 0%nat.
      split; [apply matching_open_pair, Hb|].
      split; [apply matching_close_pair, Hb|].
      replace (i + Z.of_nat (S (length inner)))
        with (i + 1 + Z.of_nat (length inner)) by lia.
      rewrite Hclose, Z.add_0_r. reflexivity.
Qed.

(** ** The loop of [build_bracket_map] *)

Lemma for_chars_cons {S : Type} (body : ascii -> Z -> S -> Result S)
    (c : ascii) (cs : list ascii) (i : Z) (s : S) :
  for_chars body (c :: cs) i s =
    match body c i s with
    | Ok s' => for_chars body cs (i + 1) s'
    | Raise f => Raise f
    end.
Proof. reflexivity. Qed.

Lemma for_chars_app {S : Type} (body : ascii -> Z -> S -> Result S)
    (a b : list ascii) (i : Z) (s : S) :
  for_chars body (a ++ b) i s =
    match for_chars body a i s with
    | Ok s' => for_chars body b (i + Z.of_nat (length a)) s'
    | Raise f => Raise f
    end.
Proof.
  revert i s. induction a as [|c a IH]; intros i s.
  - simpl. rewrite Z.add_0_r. reflexivity.
  - change ((c :: a) ++ b) with (c :: (a ++ b)). rewrite !for_chars_cons.
    destruct (body c i s) as [s'|f]; [|reflexivity].
    rewrite IH. replace (i + 1 + Z.of_nat (length a))
      with (i + Z.of_nat (length (c :: a))) by (simpl length; lia).
    reflexivity.
Qed.

Lemma build_body_open (i : Z) (st : list Z) (m : bracket_map_t) :
  build_bracket_map_body "[" i (st, m) = Ok (i :: st, m).
Proof. reflexivity. Qed.

Lemma build_body_close (i j : Z) (st : list Z) (m : bracket_map_t) :
  build_bracket_map_body "]" i (j :: st, m) =
    Ok (st, <[i := JumpNonzeroInstruction j]> (<[j := JumpZeroInstruction i]> m)).
Proof. reflexivity. Qed.

Lemma build_body_close_empty (i : Z) (m : bracket_map_t) :
  build_bracket_map_body "]" i ([], m) = Raise (undefined EmptyBack).
Proof. reflexivity. Qed.

Lemma build_body_other (c : ascii) (i : Z) (s : list Z * bracket_map_t) :
  c <> "["%char -> c <> "]"%char -> build_bracket_map_body c i s = Ok s.
Proof.
  intros Hu Hd. destruct s as [st m]. unfold build_bracket_map_body.
  rewrite (proj2 (Ascii.eqb_neq _ _) (not_eq_sym Hu)),
          (proj2 (Ascii.eqb_neq _ _) (not_eq_sym Hd)).
  reflexivity.
Qed.

(** Over a nested stretch the loop gives the stack back as it found it,
    writes no key outside the stretch and resolves the stretch. *)
Lemma build_Balanced (b : list ascii) :
  Balanced b -> forall (i : Z) (st : list Z) (m : bracket_map_t),
  exists m',
    for_chars build_bracket_map_body b i (st, m) = Ok (st, m') /\
    (forall k, k < i \/ i + Z.of_nat (length b) <= k -> m' !! k = m !! k) /\
    resolves b i m'.
Proof.
  induction 1 as [|c cs Hu Hd _ IH|inner rest Hinner IH1 _ IH2]; intros i st m.
  - exists m. split; [reflexivity|]. split; [reflexivity|apply resolves_nil].
  - destruct (IH (i + 1) st m) as (m' & Hrun & Hframe & Hres).
    exists m'. rewrite !for_chars_cons. rewrite build_body_other by assumption.
    split; [exact Hrun|]. split.
    + intros k Hk. apply Hframe. simpl length in Hk. lia.
    + apply (resolves_app [c] cs); [apply resolves_other; assumption|].
      simpl length. exact Hres.
  - destruct (IH1 (i + 1) (i :: st) m) as (m1 & Hrun1 & Hframe1 & Hres1).
    set (j := i + 1 + Z.of_nat (length inner)).
    set (m1' := <[j := JumpNonzeroInstruction i]> (<[i := JumpZeroInstruction j]> m1)).
    destruct (IH2 (j + 1) st m1') as (m2 & Hrun2 & Hframe2 & Hres2).
    exists m2.
    assert (Hlen : Z.of_nat (length ("["%char :: inner ++ "]"%char :: rest)) =
                   Z.of_nat (length inner) + Z.of_nat (length rest) + 2).
    { simpl length. rewrite length_app. simpl length. lia. }
    split; [|split].
    + rewrite for_chars_cons, build_body_open, for_chars_app, Hrun1.
      rewrite for_chars_cons. fold j. rewrite build_body_close. exact Hrun2.
    + intros k Hk. rewrite Hlen in Hk.
      rewrite Hframe2 by (unfold j; lia). unfold m1'.
      rewrite !lookup_insert_ne by (unfold j; lia).
      apply Hframe1. lia.
    + change ("["%char :: inner ++ "]"%char :: rest)
        with (("["%char :: inner) ++ ["]"%char] ++ rest).
      rewrite app_assoc.
      apply (resolves_app ("["%char :: inner ++ ["]"%char]) rest).
      * apply resolves_pair; [exact Hinner|..].
        -- apply (resolves_ext _ _ m1); [exact Hres1|].
           intros k Hk. rewrite Hframe2 by (unfold j; lia). unfold m1'.
           rewrite !lookup_insert_ne by (unfold j; lia). reflexivity.
        -- rewrite Hframe2 by (unfold j; lia). unfold m1'.
           rewrite lookup_insert_ne by (unfold j; lia).
           rewrite lookup_insert_eq. reflexivity.
        -- fold j. rewrite Hframe2 by lia. unfold m1'.
           rewrite lookup_insert_eq. reflexivity.
      * assert (Hj1 : i + Z.of_nat (length ("["%char :: inner ++ ["]"%char])) = j + 1)
          by (unfold j; simpl length; rewrite length_app; simpl length; lia).
        rewrite Hj1. exact Hres2.
Qed.

(** ** What the search finds *)

Lemma nearest_finds (up down : ascii) (cs : list ascii) (d k : nat) :
  nearest up down cs d = Some k -> cs !! k = Some down.
Proof.
  revert d k. induction cs as [|c cs IH]; intros d k; simpl; [discriminate|].
  destruct (Ascii.eqb_spec c up) as [Hcu|Hcu].
  - destruct (nearest up down cs (S d)) as [k'|] eqn:Hk; [|discriminate].
    intros [= <-]. simpl. eauto.
  - destruct (Ascii.eqb_spec c down) as [->|Hcd].
    + destruct d as [|d]; [intros [= <-]; reflexivity|].
      destruct (nearest up down cs d) as [k'|] eqn:Hk; [|discriminate].
      intros [= <-]. simpl. eauto.
    + destruct (nearest up down cs d) as [k'|] eqn:Hk; [|discriminate].
      intros [= <-]. simpl. eauto.
Qed.

Lemma matching_close_char (cs : list ascii) (i j : nat) :
  matching_close cs i = Some j -> cs !! j = Some "]"%char.
Proof.
  unfold matching_close.
  destruct (nearest "[" "]" (drop (S i) cs) 0) as [x|] eqn:Hx; [|discriminate].
  intros [= <-]. apply nearest_finds in Hx. rewrite lookup_drop in Hx.
  rewrite <- Hx. f_equal. lia.
Qed.

Lemma matching_open_char (cs : list ascii) (i j : nat) :
  (j <= length cs)%nat ->
  matching_open cs j = Some i -> cs !! i = Some "["%char.
Proof.
  intros Hj. unfold matching_open.
  destruct (nearest "]" "[" (rev (take j cs)) 0) as [x|] eqn:Hx; [|discriminate].
  intros [= <-]. pose proof (nearest_lt _ _ _ _ _ Hx) as Hlt.
  apply nearest_finds in Hx. rewrite length_rev in Hlt.
  rewrite rev_alt in Hx. fold (reverse (take j cs)) in Hx.
  rewrite reverse_lookup in Hx by exact Hlt.
  rewrite length_take in Hlt, Hx.
  apply lookup_take_Some in Hx as [Hx _]. rewrite <- Hx. f_equal. lia.
Qed.

(** ** Fetching from a [FlyweightCode] *)

Lemma string_at_lookup (code : string) (k : nat) (c : ascii) :
  chars code !! k = Some c -> string_at code (Z.of_nat k) = Ok c.
Proof.
  intros Hk. unfold string_at, code_length.
  pose proof (lookup_lt_Some _ _ _ Hk) as Hlt.
  replace ((0 <=? Z.of_nat k) && (Z.of_nat k <? Z.of_nat (length (chars code))))
    with true by (symmetry; apply andb_true_iff; split; lia).
  rewrite Nat2Z.id, Hk. reflexivity.
Qed.

Lemma FlyweightCode_at_bracket (fc : FlyweightCode) (k : nat) (c : ascii) :
  chars (m_code fc) !! k = Some c ->
  c = "["%char \/ c = "]"%char ->
  FlyweightCode_at fc (Z.of_nat k) = bracket_map_at (m_bracket_map fc) (Z.of_nat k).
Proof.
  intros Hk Hc. unfold FlyweightCode_at. rewrite (string_at_lookup _ _ _ Hk).
  destruct Hc as [-> | ->]; reflexivity.
Qed.

Lemma FlyweightCode_new_Ok (O : Outputter) (I : Inputter) (code : string)
    (st : list Z) (m : bracket_map_t) :
  for_chars build_bracket_map_body (chars code) 0 ([], ∅) = Ok (st, m) ->
  FlyweightCode_new O I code =
    Ok {| m_code := code; m_bracket_map := m;
          m_inc := IncDataInstruction; m_dec := DecDataInstruction;
          m_next := NextDataInstruction; m_prev := PrevDataInstruction;
          m_in := InInstruction I; m_out := OutInstruction O |}.
Proof.
  intros Hrun. unfold FlyweightCode_new, build_bracket_map. rewrite Hrun.
  reflexivity.
Qed.

(** ** Balanced sources *)

(** C2: for a balanced source, construction succeeds, and in the program
    the slot of every ["["] holds a jump-if-zero to the index of its
    matching ["]"] and the slot of every ["]"] a jump-if-nonzero to the
    index of its matching ["["]; the two brackets are each other's
    partner. *)
Theorem balanced_program_resolved (O : Outputter) (I : Inputter) (code : string) :
  balanced code = true ->
  exists fc,
    FlyweightCode_new O I code = Ok fc /\
    m_code fc = code /\
    (forall i : nat, chars code !! i = Some "["%char ->
       exists j : nat,
         matching_close (chars code) i = Some j /\
         matching_open (chars code) j = Some i /\
         chars code !! j = Some "]"%char /\
         code_at fc (Z.of_nat i) =
           Ok (Some (JumpZeroInstruction (Z.of_nat j)))) /\
    (forall j : nat, chars code !! j = Some "]"%char ->
       exists i : nat,
         matching_open (chars code) j = Some i /\
         matching_close (chars code) i = Some j /\
         chars code !! i = Some "["%char /\
         code_at fc (Z.of_nat j) =
           Ok (Some (JumpNonzeroInstruction (Z.of_nat i)))).
Proof.
  intros Hbal. apply balanced_Balanced in Hbal.
  destruct (build_Balanced _ Hbal 0 [] ∅) as (m & Hrun & _ & Hopen & Hclose).
  eexists. split; [apply (FlyweightCode_new_Ok O I code [] m), Hrun|].
  split; [reflexivity|]. split.
  - intros i Hi. destruct (Hopen i Hi) as (j & Hj & Ho & Hm).
    exists j. do 2 (split; [assumption|]).
    split; [apply matching_close_char with i, Hj|].
    simpl code_at. rewrite (FlyweightCode_at_bracket _ i "[") by auto.
    simpl. unfold bracket_map_at. rewrite Z.add_0_l in Hm. rewrite Hm.
    reflexivity.
  - intros j Hj. destruct (Hclose j Hj) as (i & Hi & Hc & Hm).
    exists i. do 2 (split; [assumption|]).
    split; [apply matching_open_char with j;
            [apply lookup_lt_Some in Hj; lia | exact Hi]|].
    simpl code_at. rewrite (FlyweightCode_at_bracket _ j "]") by auto.
    simpl. unfold bracket_map_at. rewrite Z.add_0_l in Hm. rewrite Hm.
    reflexivity.
Qed.

Lemma balanced_program_resolved_witness :
  exists fc,
    FlyweightCode_new StdOutputter StdInputter "+[[-]>]" = Ok fc /\
    code_at fc 1 = Ok (Some (JumpZeroInstruction 6)) /\
    code_at fc 4 = Ok (Some (JumpNonzeroInstruction 2)).
Proof.
  destruct (balanced_program_resolved StdOutputter StdInputter "+[[-]>]" eq_refl)
    as (fc & Hnew & _ & Hopen & Hclose).
  exists fc. split; [exact Hnew|]. split.
  - destruct (Hopen 1%nat eq_refl) as (j & Hj & _ & _ & Hat).
    injection Hj as <-. exact Hat.
  - destruct (Hclose 4%nat eq_refl) as (i & Hi & _ & _ & Hat).
    injection Hi as <-. exact Hat.
Defined.

(** ** Jump targets stay inside the program *)

Lemma jump_within_mono (n n' k : Z) (ins : Instruction) :
  n <= n' -> jump_within n k ins -> jump_within n' k ins.
Proof.
  intros Hn [Hk [(t & -> & Ht)|(t & -> & Ht)]]; split; try lia;
    [left|right]; exists t; split; auto; lia.
Qed.

Lemma build_targets (cs : list ascii) :
  forall (i : Z) (st st' : list Z) (m m' : bracket_map_t),
  0 <= i ->
  Forall (fun j => 0 <= j < i) st ->
  (forall k ins, m !! k = Some ins -> jump_within i k ins) ->
  for_chars build_bracket_map_body cs i (st, m) = Ok (st', m') ->
  Forall (fun j => 0 <= j < i + Z.of_nat (length cs)) st' /\
  (forall k ins, m' !! k = Some ins ->
     jump_within (i + Z.of_nat (length cs)) k ins).
Proof.
  induction cs as [|c cs IH]; intros i st st' m m' Hi Hst Hm Hrun.
  - injection Hrun as <- <-. simpl length. rewrite Z.add_0_r. auto.
  - rewrite for_chars_cons in Hrun.
    replace (i + Z.of_nat (length (c :: cs)))
      with (i + 1 + Z.of_nat (length cs)) by (simpl length; lia).
    destruct (bracket_cases c) as [->|[->|[Hu Hd]]].
    + rewrite build_body_open in Hrun.
      apply (IH (i + 1) (i :: st) st' m m'); [lia| | |exact Hrun].
      * constructor; [lia|]. eapply Forall_impl; [exact Hst|].
        simpl. intros; lia.
      * intros k ins Hk. apply (jump_within_mono i); [lia|auto].
    + destruct st as [|j st]; [discriminate|].
      rewrite build_body_close in Hrun.
      apply Forall_cons in Hst as [Hj Hst].
      eapply (IH (i + 1)); [lia| | |exact Hrun].
      * eapply Forall_impl; [exact Hst|]. simpl. intros; lia.
      * intros k ins Hk.
        destruct (decide (k = i)) as [->|Hki].
        { rewrite lookup_insert_eq in Hk. injection Hk as <-.
          split; [lia|]. right. exists j. split; [reflexivity|lia]. }
        rewrite lookup_insert_ne in Hk by auto.
        destruct (decide (k = j)) as [->|Hkj].
        { rewrite lookup_insert_eq in Hk. injection Hk as <-.
          split; [lia|]. left. exists i. split; [reflexivity|lia]. }
        rewrite lookup_insert_ne in Hk by auto.
        apply (jump_within_mono i); [lia|auto].
    + rewrite build_body_other in Hrun by assumption.
      apply (IH (i + 1) st st' m m'); [lia| | |exact Hrun].
      * eapply Forall_impl; [exact Hst|]. simpl. intros; lia.
      * intros k ins Hk. apply (jump_within_mono i); [lia|auto].
Qed.

Lemma FlyweightCode_new_inv (O : Outputter) (I : Inputter) (code : string)
    (fc : FlyweightCode) :
  FlyweightCode_new O I code = Ok fc ->
  exists st,
    for_chars build_bracket_map_body (chars code) 0 ([], ∅) =
      Ok (st, m_bracket_map fc) /\
    fc = {| m_code := code; m_bracket_map := m_bracket_map fc;
            m_inc := IncDataInstruction; m_dec := DecDataInstruction;
            m_next := NextDataInstruction; m_prev := PrevDataInstruction;
            m_in := InInstruction I; m_out := OutInstruction O |}.
Proof.
  unfold FlyweightCode_new, build_bracket_map.
  destruct (for_chars build_bracket_map_body (chars code) 0 ([], ∅))
    as [[st m]|f]; [|discriminate].
  intros [= <-]. exists st. split; reflexivity.
Qed.

Lemma bracket_map_targets (O : Outputter) (I : Inputter) (code : string)
    (fc : FlyweightCode) (k : Z) (ins : Instruction) :
  FlyweightCode_new O I code = Ok fc ->
  m_bracket_map fc !! k = Some ins ->
  jump_within (code_length code) k ins.
Proof.
  intros Hnew Hk. destruct (FlyweightCode_new_inv _ _ _ _ Hnew) as (st & Hrun & _).
  apply (build_targets _ 0 [] st ∅ _ ltac:(lia)) in Hrun as [_ Hm];
    [apply (Hm k ins Hk) | constructor |].
  intros k' ins' Hk'. rewrite lookup_empty in Hk'. discriminate.
Qed.

(** A jump fetched from a [FlyweightCode] comes out of the bracket map. *)
Lemma fetch_jump (O : Outputter) (I : Inputter) (code : string)
    (fc : FlyweightCode) (st : BrainfuckState) (ins : Instruction) :
  FlyweightCode_new O I code = Ok fc ->
  fetch fc st = Ok ins ->
  is_jump ins = true ->
  m_bracket_map fc !! program_counter st = Some ins.
Proof.
  intros Hnew Hfetch Hjump.
  destruct (FlyweightCode_new_inv _ _ _ _ Hnew) as (_ & _ & Hfc).
  unfold fetch in Hfetch. simpl code_at in Hfetch.
  unfold FlyweightCode_at in Hfetch.
  destruct (string_at (m_code fc) (program_counter st)) as [c|]; [|discriminate].
  rewrite Hfc in Hfetch. simpl in Hfetch.
  repeat match type of Hfetch with
         | context [(c =? ?x)%char] =>
             destruct (c =? x)%char;
             [try (injection Hfetch as <-; discriminate)|]
         end; try discriminate.
  all: simpl in Hfetch; unfold bracket_map_at in Hfetch;
    destruct (m_bracket_map fc !! program_counter st) as [ins'|];
    [injection Hfetch as <-; reflexivity | discriminate].
Qed.

Lemma wrap_size_small (z : Z) : 0 <= z < 2 ^ 64 -> wrap_size z = z.
Proof. apply Z.mod_small. Qed.

(** C3: a jump with target [t] fetched from a built program. When its
    condition holds (cell zero for jump-if-zero, cell nonzero for
    jump-if-nonzero) [execute] sets the program counter to [t] and the
    step's increment resumes at [t + 1]; when it does not hold [execute]
    changes nothing and the step falls through to the next index. *)
Theorem jump_resumes_after_target (O : Outputter) (I : Inputter)
    (code : string) (fc : FlyweightCode) (st : BrainfuckState) (con : Console)
    (ins : Instruction) (t v : Z) :
  code_length code < 2 ^ 64 ->
  FlyweightCode_new O I code = Ok fc ->
  fetch fc st = Ok ins ->
  ins = JumpZeroInstruction t \/ ins = JumpNonzeroInstruction t ->
  read_cell st = Ok v ->
  execute ins st con =
    Ok (if jump_taken ins v then with_program_counter st t else st, con) /\
  step fc st con =
    Ok (with_program_counter st
          (if jump_taken ins v then t + 1 else program_counter st + 1), con) /\
  0 <= t < code_size fc.
Proof.
  intros Hsize Hnew Hfetch Hins Hv.
  assert (Hjump : is_jump ins = true) by (destruct Hins as [-> | ->]; reflexivity).
  pose proof (fetch_jump _ _ _ _ _ _ Hnew Hfetch Hjump) as Hmap.
  pose proof (bracket_map_targets _ _ _ _ _ _ Hnew Hmap) as [Hpc Ht].
  destruct (FlyweightCode_new_inv _ _ _ _ Hnew) as (_ & _ & Hfc).
  assert (Hsz : code_size fc = code_length code) by (rewrite Hfc; reflexivity).
  assert (Htr : 0 <= t < code_length code).
  { destruct Hins as [-> | ->];
      destruct Ht as [(t' & [= <-] & Ht)|(t' & [= <-] & Ht)]; lia. }
  assert (Hex : execute ins st con =
                Ok (if jump_taken ins v then with_program_counter st t else st, con)).
  { destruct Hins as [-> | ->]; simpl; unfold_M; rewrite Hv;
      destruct v; reflexivity. }
  split; [exact Hex|]. split; [|lia].
  unfold step. unfold_M. rewrite Hfetch, Hex.
  destruct (jump_taken ins v); simpl; unfold with_program_counter; simpl;
    rewrite wrap_size_small by lia; reflexivity.
Qed.

Lemma jump_resumes_after_target_witness :
  step clear_loop {| data_counter := 0; program_counter := 3; field := [1] |}
       sample_console =
    Ok ({| data_counter := 0; program_counter := 2; field := [1] |},
        sample_console).
Proof.
  apply (jump_resumes_after_target StdOutputter StdInputter "+[-]" clear_loop
           {| data_counter := 0; program_counter := 3; field := [1] |}
           sample_console (JumpNonzeroInstruction 1) 1 1);
    [reflexivity | reflexivity | reflexivity | right; reflexivity | reflexivity].
Defined.

(** ** The dispatch loop *)

Section DispatchLoop.
Context {C : Type} `{BFCode C}.

Lemma step_unfold (code : C) (st : BrainfuckState) (con : Console) :
  step code st con =
    match fetch code st with
    | Raise f => Raise f
    | Ok ins =>
        match execute ins st con with
        | Raise f => Raise f
        | Ok (st', con') =>
            Ok (with_program_counter st'
                  (wrap_size (program_counter st' + 1)), con')
        end
    end.
Proof.
  unfold step. unfold_M. destruct (fetch code st) as [ins|f]; [|reflexivity].
  destruct (execute ins st con) as [[st' con']|f]; reflexivity.
Qed.

Lemma step_program_counter (code : C) (st st' : BrainfuckState)
    (con con' : Console) :
  step code st con = Ok (st', con') -> 0 <= program_counter st' < 2 ^ 64.
Proof.
  rewrite step_unfold. destruct (fetch code st) as [ins|f]; [|discriminate].
  destruct (execute ins st con) as [[st1 con1]|f]; [|discriminate].
  intros [= <- _]. simpl. apply Z.mod_pos_bound. lia.
Qed.

Lemma interpret_running (fuel : nat) (code : C) (st : BrainfuckState)
    (con : Console) :
  program_counter st < code_size code ->
  interpret (S fuel) code st con =
    match step code st con with
    | Ok (st', con') => interpret fuel code st' con'
    | Raise f => Some (Raise f)
    end.
Proof.
  intros Hpc. simpl. rewrite (proj2 (Z.ltb_lt _ _) Hpc). reflexivity.
Qed.

Lemma interpret_halted (fuel : nat) (code : C) (st : BrainfuckState)
    (con : Console) :
  code_size code <= program_counter st ->
  interpret fuel code st con = Some (Ok (st, con)).
Proof.
  intros Hpc. destruct fuel; simpl; rewrite (proj2 (Z.ltb_ge _ _) Hpc);
    reflexivity.
Qed.

(** The loop returns only past the end of the program, after as many
    steps as it took iterations, each begun inside the program. *)
Lemma interpret_returns (code : C) (fuel : nat) :
  forall (st st' : BrainfuckState) (con con' : Console),
  interpret fuel code st con = Some (Ok (st', con')) ->
  code_size code <= program_counter st' /\
  exists k : nat, (k <= fuel)%nat /\
    steps k code st con = Ok (st', con') /\
    forall j : nat, (j < k)%nat ->
      exists stj conj, steps j code st con = Ok (stj, conj) /\
        program_counter stj < code_size code.
Proof.
  induction fuel as [|fuel IH]; intros st st' con con' Hrun.
  - simpl in Hrun. destruct (Z.ltb_spec (program_counter st) (code_size code));
      [discriminate|]. injection Hrun as <- <-.
    split; [assumption|]. exists 0%nat. repeat split; auto. intros j Hj. lia.
  - destruct (Z.ltb_spec (program_counter st) (code_size code)) as [Hlt|Hge].
    + rewrite interpret_running in Hrun by exact Hlt.
      destruct (step code st con) as [[st1 con1]|f] eqn:Hstep; [|discriminate].
      destruct (IH _ _ _ _ Hrun) as (Hend & k & Hk & Hsteps & Hin).
      split; [exact Hend|]. exists (S k). split; [lia|]. split.
      * simpl. unfold_M. rewrite Hstep. exact Hsteps.
      * intros [|j] Hj.
        -- exists st, con. split; [reflexivity|exact Hlt].
        -- destruct (Hin j ltac:(lia)) as (stj & conj & Hj1 & Hj2).
           exists stj, conj. split; [|exact Hj2].
           simpl. unfold_M. rewrite Hstep. exact Hj1.
    + rewrite interpret_halted in Hrun by exact Hge. injection Hrun as <- <-.
      split; [assumption|]. exists 0%nat. repeat split; auto; [lia|].
      intros j Hj. lia.
Qed.

(** On a well-formed program the loop is left abnormally only when an
    instruction reaches outside the tape. *)
Lemma interpret_faults (code : C) (fuel : nat) :
  well_formed code ->
  forall (st : BrainfuckState) (con : Console) (f : Fault),
  0 <= program_counter st ->
  interpret fuel code st con = Some (Raise f) ->
  f = undefined FieldBounds.
Proof.
  intros Hwf. induction fuel as [|fuel IH]; intros st con f Hpc Hrun.
  - simpl in Hrun. destruct (program_counter st <? code_size code); discriminate.
  - destruct (Z.ltb_spec (program_counter st) (code_size code)) as [Hlt|Hge].
    + rewrite interpret_running in Hrun by exact Hlt.
      destruct (step code st con) as [[st1 con1]|f1] eqn:Hstep.
      * apply (IH st1 con1); [|exact Hrun].
        apply step_program_counter in Hstep. lia.
      * injection Hrun as <-. rewrite step_unfold in Hstep. unfold fetch in Hstep.
        destruct (Hwf (program_counter st) ltac:(lia)) as [ins Hins].
        rewrite Hins in Hstep.
        destruct (execute ins st con) as [[st1 con1]|f] eqn:Hex; [discriminate|].
        injection Hstep as <-. apply execute_fault in Hex as [-> _]. reflexivity.
    + rewrite interpret_halted in Hrun by exact Hge. discriminate.
Qed.

Lemma step_iteration (code : C) (st : BrainfuckState) (con : Console)
    (s' : BrainfuckState * Console) :
  program_counter st < code_size code ->
  step code st con = Ok s' <-> iteration code (st, con) s'.
Proof.
  intros Hlt. rewrite step_unfold. unfold fetch. split.
  - destruct (code_at code (program_counter st)) as [[ins|]|] eqn:Hat;
      try discriminate.
    destruct (execute ins st con) as [[st1 con1]|] eqn:Hex; [|discriminate].
    intros [= <-]. econstructor; eassumption.
  - inversion 1 as [st0 st1 con0 con1 ins _ Hat Hex]; subst.
    rewrite Hat, Hex. reflexivity.
Qed.

Lemma step_iteration_fails (code : C) (st : BrainfuckState) (con : Console)
    (f : Fault) :
  program_counter st < code_size code ->
  step code st con = Raise f <-> iteration_fails code (st, con) f.
Proof.
  intros Hlt. rewrite step_unfold. unfold fetch. split.
  - destruct (code_at code (program_counter st)) as [[ins|]|f0] eqn:Hat.
    + destruct (execute ins st con) as [[st1 con1]|f1] eqn:Hex; [discriminate|].
      intros [= <-]. eapply fails_execute; eassumption.
    + intros [= <-]. apply fails_null; assumption.
    + intros [= <-]. apply fails_fetch; assumption.
  - inversion 1 as [st0 con0 f0 _ Hat|st0 con0 _ Hat|st0 con0 ins f0 _ Hat Hex];
      subst; rewrite Hat, ?Hex; reflexivity.
Qed.

Lemma iteration_inside (code : C) (s s' : BrainfuckState * Console) :
  iteration code s s' -> program_counter (fst s) < code_size code.
Proof. inversion 1; assumption. Qed.

Lemma interpret_returns_iff (code : C) (fuel : nat) :
  forall (st : BrainfuckState) (con : Console) (s' : BrainfuckState * Console),
  interpret fuel code st con = Some (Ok s') <->
  exists k : nat, (k <= fuel)%nat /\ iterations code k (st, con) s' /\
    code_size code <= program_counter (fst s').
Proof.
  induction fuel as [|fuel IH]; intros st con s'.
  - destruct (Z.ltb_spec (program_counter st) (code_size code)) as [Hlt|Hge].
    + simpl. rewrite (proj2 (Z.ltb_lt _ _) Hlt). split; [discriminate|].
      intros (k & Hk & Hrun & Hend). assert (k = 0%nat) as -> by lia.
      inversion Hrun; subst. simpl in Hend. lia.
    + rewrite interpret_halted by exact Hge. split.
      * intros [= <-]. exists 0%nat. split; [lia|]. split; [constructor|exact Hge].
      * intros (k & Hk & Hrun & _). assert (k = 0%nat) as -> by lia.
        inversion Hrun; subst. reflexivity.
  - destruct (Z.ltb_spec (program_counter st) (code_size code)) as [Hlt|Hge].
    + rewrite interpret_running by exact Hlt. split.
      * destruct (step code st con) as [[st1 con1]|f] eqn:Hstep; [|discriminate].
        intros Hrun. apply IH in Hrun as (k & Hk & Hrun & Hend).
        exists (S k). split; [lia|]. split; [|exact Hend].
        apply iterations_S with (st1, con1); [|exact Hrun].
        apply step_iteration; assumption.
      * intros (k & Hk & Hrun & Hend).
        inversion Hrun as [s0|k' s0 [st1 con1] s2 Hit Hrest]; subst.
        { simpl in Hend. lia. }
        apply step_iteration in Hit; [|exact Hlt]. rewrite Hit.
        apply IH. exists k'. split; [lia|]. auto.
    + rewrite interpret_halted by exact Hge. split.
      * intros [= <-]. exists 0%nat. split; [lia|]. split; [constructor|exact Hge].
      * intros (k & Hk & Hrun & _).
        inversion Hrun as [s0|k' s0 s1 s2 Hit Hrest]; subst; [reflexivity|].
        apply iteration_inside in Hit. simpl in Hit. lia.
Qed.

Lemma interpret_raises_iff (code : C) (fuel : nat) :
  forall (st : BrainfuckState) (con : Console) (f : Fault),
  interpret fuel code st con = Some (Raise f) <->
  exists (k : nat) (s : BrainfuckState * Console),
    (k < fuel)%nat /\ iterations code k (st, con) s /\ iteration_fails code s f.
Proof.
  induction fuel as [|fuel IH]; intros st con f.
  - split; [|intros (k & s & Hk & _); lia].
    simpl. destruct (program_counter st <? code_size code); discriminate.
  - destruct (Z.ltb_spec (program_counter st) (code_size code)) as [Hlt|Hge].
    + rewrite interpret_running by exact Hlt. split.
      * destruct (step code st con) as [[st1 con1]|f1] eqn:Hstep.
        -- intros Hrun. apply IH in Hrun as (k & s & Hk & Hrun & Hfail).
           exists (S k), s. split; [lia|]. split; [|exact Hfail].
           apply iterations_S with (st1, con1); [|exact Hrun].
           apply step_iteration; assumption.
        -- intros [= <-]. exists 0%nat, (st, con). split; [lia|].
           split; [constructor|]. apply step_iteration_fails; assumption.
      * intros (k & s & Hk & Hrun & Hfail).
        inversion Hrun as [s0|k' s0 [st1 con1] s2 Hit Hrest]; subst.
        -- apply step_iteration_fails in Hfail; [|exact Hlt]. rewrite Hfail.
           reflexivity.
        -- apply step_iteration in Hit; [|exact Hlt]. rewrite Hit.
           apply IH. exists k', s. split; [lia|]. auto.
    + rewrite interpret_halted by exact Hge. split; [discriminate|].
      intros (k & s & Hk & Hrun & Hfail).
      inversion Hrun as [s0|k' s0 s1 s2 Hit Hrest]; subst.
      * inversion Hfail; subst; lia.
      * apply iteration_inside in Hit. simpl in Hit. lia.
Qed.

Lemma interpret_running_iff (code : C) (fuel : nat) :
  forall (st : BrainfuckState) (con : Console),
  interpret fuel code st con = None <->
  exists s : BrainfuckState * Console,
    iterations code fuel (st, con) s /\
    program_counter (fst s) < code_size code.
Proof.
  induction fuel as [|fuel IH]; intros st con.
  - destruct (Z.ltb_spec (program_counter st) (code_size code)) as [Hlt|Hge].
    + simpl. rewrite (proj2 (Z.ltb_lt _ _) Hlt). split; [|reflexivity].
      intros _. exists (st, con). split; [constructor|exact Hlt].
    + rewrite interpret_halted by exact Hge. split; [discriminate|].
      intros (s & Hrun & Hin). inversion Hrun; subst. simpl in Hin. lia.
  - destruct (Z.ltb_spec (program_counter st) (code_size code)) as [Hlt|Hge].
    + rewrite interpret_running by exact Hlt. split.
      * destruct (step code st con) as [[st1 con1]|f1] eqn:Hstep; [|discriminate].
        intros Hrun. apply IH in Hrun as (s & Hrun & Hin).
        exists s. split; [|exact Hin].
        apply iterations_S with (st1, con1); [|exact Hrun].
        apply step_iteration; assumption.
      * intros (s & Hrun & Hin).
        inversion Hrun as [|k' s0 [st1 con1] s2 Hit Hrest]; subst.
        apply step_iteration in Hit; [|exact Hlt]. rewrite Hit.
        apply IH. exists s. auto.
    + rewrite interpret_halted by exact Hge. split; [discriminate|].
      intros (s & Hrun & _).
      inversion Hrun as [|k' s0 s1 s2 Hit Hrest]; subst.
      apply iteration_inside in Hit. simpl in Hit. lia.
Qed.

(** C4, as the code has it: the dispatch loop, for every program and
    state, against the loop as the specification words it. Begun below
    the program's size, [step] is exactly one iteration (one fetch of the
    slot at the program counter, one execute, one increment of the program
    counter) and fails exactly as such an iteration fails. [interpret]
    returns a state exactly when some number of completed iterations,
    each begun below the size, leads to it and its program counter is at
    or past the size; it is still running after [fuel] iterations exactly
    when that many iterations complete and end below the size. The loop
    is also left below the size, exactly when an iteration begun there
    does not complete: the fetch throws or is undefined, the slot is
    null, or the instruction faults. On a well-formed program the last,
    an access outside the tape, is the only such way out. *)
Theorem dispatch_loop (code : C) (st : BrainfuckState) (con : Console) :
  (program_counter st < code_size code ->
     (forall s', step code st con = Ok s' <-> iteration code (st, con) s') /\
     (forall f, step code st con = Raise f <->
                iteration_fails code (st, con) f)) /\
  (forall fuel s',
     interpret fuel code st con = Some (Ok s') <->
     exists k : nat, (k <= fuel)%nat /\ iterations code k (st, con) s' /\
       code_size code <= program_counter (fst s')) /\
  (forall fuel,
     interpret fuel code st con = None <->
     exists s, iterations code fuel (st, con) s /\
       program_counter (fst s) < code_size code) /\
  (forall fuel f,
     interpret fuel code st con = Some (Raise f) <->
     exists (k : nat) s, (k < fuel)%nat /\ iterations code k (st, con) s /\
       iteration_fails code s f) /\
  (well_formed code -> 0 <= program_counter st ->
     forall fuel f,
       interpret fuel code st con = Some (Raise f) -> f = undefined FieldBounds).
Proof.
  split; [|split; [|split; [|split]]].
  - intros Hlt. split; [intros s'; apply step_iteration, Hlt|].
    intros f. apply step_iteration_fails, Hlt.
  - intros fuel s'. apply interpret_returns_iff.
  - intros fuel. apply interpret_running_iff.
  - intros fuel f. apply interpret_raises_iff.
  - intros Hwf Hpc fuel f. apply interpret_faults; assumption.
Qed.

End DispatchLoop.

(** ** Programs of balanced sources are well formed *)

Lemma balanced_bracket_entry (O : Outputter) (I : Inputter) (code : string)
    (fc : FlyweightCode) (k : nat) (c : ascii) :
  Balanced (chars code) ->
  FlyweightCode_new O I code = Ok fc ->
  chars code !! k = Some c ->
  c = "["%char \/ c = "]"%char ->
  is_Some (m_bracket_map fc !! Z.of_nat k).
Proof.
  intros Hbal Hnew Hk Hc.
  destruct (build_Balanced _ Hbal 0 [] ∅) as (m & Hrun & _ & Hopen & Hclose).
  rewrite (FlyweightCode_new_Ok O I code [] m Hrun) in Hnew.
  injection Hnew as <-. simpl.
  destruct Hc as [-> | ->].
  - destruct (Hopen k Hk) as (j & _ & _ & Hm). rewrite Z.add_0_l in Hm. eauto.
  - destruct (Hclose k Hk) as (j & _ & _ & Hm). rewrite Z.add_0_l in Hm. eauto.
Qed.

Lemma balanced_well_formed (O : Outputter) (I : Inputter) (code : string)
    (fc : FlyweightCode) :
  balanced code = true ->
  forallb is_bf_char (chars code) = true ->
  FlyweightCode_new O I code = Ok fc ->
  well_formed fc.
Proof.
  intros Hbal Hall Hnew i Hi. apply balanced_Balanced in Hbal.
  destruct (FlyweightCode_new_inv _ _ _ _ Hnew) as (_ & _ & Hfc).
  assert (Hcode : m_code fc = code) by (rewrite Hfc; reflexivity).
  simpl code_size in Hi. rewrite Hcode in Hi. unfold code_length in Hi.
  destruct (lookup_lt_is_Some_2 (chars code) (Z.to_nat i) ltac:(lia)) as [c Hc].
  assert (Hbf : is_bf_char c = true).
  { rewrite forallb_forall in Hall. apply Hall.
    apply list_elem_of_In, list_elem_of_lookup. eauto. }
  assert (Hbr : c = "["%char \/ c = "]"%char ->
                is_Some (m_bracket_map fc !! i)).
  { intros Hcb. replace i with (Z.of_nat (Z.to_nat i)) by lia.
    eapply balanced_bracket_entry; eauto. }
  assert (Hat : string_at (m_code fc) i = Ok c).
  { rewrite Hcode, <- (Z2Nat.id i) by lia. apply string_at_lookup, Hc. }
  simpl code_at. unfold FlyweightCode_at. rewrite Hat.
  unfold is_bf_char in Hbf.
  repeat match goal with
         | |- context [(c =? ?x)%char] =>
             destruct (Ascii.eqb_spec c x) as [?|?]; [try (eexists; reflexivity)|]
         end; try discriminate.
  all: simpl; unfold bracket_map_at; destruct Hbr as [ins ->]; eauto.
Qed.

Lemma dispatch_loop_witness :
  iteration clear_loop
    ({| data_counter := 0; program_counter := 0; field := [0] |}, sample_console)
    ({| data_counter := 0; program_counter := 1; field := [1] |}, sample_console) /\
  (exists k : nat, (k <= 4)%nat /\
     iterations clear_loop k
       ({| data_counter := 0; program_counter := 0; field := [0] |}, sample_console)
       ({| data_counter := 0; program_counter := 4; field := [0] |}, sample_console) /\
     code_size clear_loop <= 4) /\
  (forall fuel f,
     interpret fuel clear_loop
       {| data_counter := 0; program_counter := 0; field := [0] |}
       sample_console = Some (Raise f) -> f = undefined FieldBounds).
Proof.
  pose proof (dispatch_loop clear_loop
                {| data_counter := 0; program_counter := 0; field := [0] |}
                sample_console) as (Hstep & Hret & _ & _ & Hwf).
  split; [|split].
  - assert (Hlt : 0 < code_size clear_loop) by (vm_compute; reflexivity).
    apply (proj1 (Hstep Hlt)). vm_compute. reflexivity.
  - apply (Hret 4%nat
             ({| data_counter := 0; program_counter := 4; field := [0] |},
              sample_console)).
    vm_compute. reflexivity.
  - apply Hwf.
    + apply (balanced_well_formed StdOutputter StdInputter "+[-]");
        reflexivity.
    + vm_compute. discriminate.
Defined.

(** ** The two builders side by side *)

Lemma is_bracket_false (c : ascii) :
  is_bracket c = false <-> c <> "["%char /\ c <> "]"%char.
Proof.
  unfold is_bracket. rewrite orb_false_iff, !Ascii.eqb_neq. reflexivity.
Qed.

Lemma is_bracket_true (c : ascii) :
  is_bracket c = true <-> c = "["%char \/ c = "]"%char.
Proof.
  unfold is_bracket. rewrite orb_true_iff, !Ascii.eqb_eq. reflexivity.
Qed.

Lemma parse_body_open (i : Z) (st : list Z) (ret : unique_ptr_code) :
  parse_code_body "[" i (st, ret) = Ok (i :: st, ret).
Proof. reflexivity. Qed.

Lemma parse_body_close (i j : Z) (st : list Z) (ret : unique_ptr_code) :
  parse_code_body "]" i (j :: st, ret) =
    Ok (st, <[Z.to_nat i := Some (JumpNonzeroInstruction j)]>
              (<[Z.to_nat j := Some (JumpZeroInstruction i)]> ret)).
Proof. reflexivity. Qed.

Lemma parse_body_close_empty (i : Z) (ret : unique_ptr_code) :
  parse_code_body "]" i ([], ret) = Raise (undefined EmptyBack).
Proof. reflexivity. Qed.

Lemma parse_body_other (c : ascii) (i : Z) (st : list Z) (ret : unique_ptr_code) :
  is_bracket c = false ->
  parse_code_body c i (st, ret) =
    Ok (st, match simple_instruction c with
            | Some ins => <[Z.to_nat i := Some ins]> ret
            | None => ret
            end).
Proof.
  intros [Hu Hd]%orb_false_iff. unfold parse_code_body, simple_instruction.
  repeat match goal with
         | |- context [(c =? ?x)%char] =>
             destruct (c =? x)%char; [try reflexivity; discriminate|]
         end.
  reflexivity.
Qed.

Lemma FlyweightCode_at_other (fc : FlyweightCode) (k : nat) (c : ascii) :
  m_inc fc = IncDataInstruction -> m_dec fc = DecDataInstruction ->
  m_next fc = NextDataInstruction -> m_prev fc = PrevDataInstruction ->
  m_in fc = InInstruction StdInputter -> m_out fc = OutInstruction StdOutputter ->
  chars (m_code fc) !! k = Some c ->
  is_bracket c = false ->
  FlyweightCode_at fc (Z.of_nat k) = Ok (simple_instruction c).
Proof.
  intros Hinc Hdec Hnext Hprev Hin Hout Hk Hc. unfold FlyweightCode_at.
  rewrite (string_at_lookup _ _ _ Hk), Hinc, Hdec, Hnext, Hprev, Hin, Hout.
  fold (is_bracket c). rewrite Hc. unfold simple_instruction.
  repeat match goal with
         | |- context [(c =? ?x)%char] =>
             destruct (c =? x)%char; [reflexivity|]
         end.
  reflexivity.
Qed.

Lemma slots_agree_start (full : list ascii) :
  slots_agree full 0 (replicate (length full) None) ∅.
Proof.
  intros k c Hk. rewrite lookup_replicate_2 by (eapply lookup_lt_Some, Hk).
  rewrite lookup_empty. destruct (is_bracket c); [reflexivity|].
  destruct (decide (k < 0)%nat); [lia|reflexivity].
Qed.

(** The two loops run in lockstep on the same stack: both stop at the
    same ["]"] without partner, or both go through. *)
Lemma builders_lockstep (full cs : list ascii) :
  forall (pre : list ascii) (st : list Z) (ret : unique_ptr_code)
         (m : bracket_map_t),
  full = pre ++ cs ->
  length ret = length full ->
  Forall (fun j => 0 <= j < Z.of_nat (length pre) /\
                   exists c, full !! Z.to_nat j = Some c /\ is_bracket c = true) st ->
  slots_agree full (length pre) ret m ->
  match for_chars build_bracket_map_body cs (Z.of_nat (length pre)) (st, m) with
  | Ok (st', m') =>
      exists ret',
        for_chars parse_code_body cs (Z.of_nat (length pre)) (st, ret) =
          Ok (st', ret') /\
        length ret' = length full /\
        slots_agree full (length full) ret' m'
  | Raise f =>
      for_chars parse_code_body cs (Z.of_nat (length pre)) (st, ret) = Raise f
  end.
Proof.
  induction cs as [|c cs IH]; intros pre st ret m Hfull Hlen Hst Hag.
  - simpl. exists ret. rewrite app_nil_r in Hfull. subst full.
    repeat split; assumption.
  - assert (Hfull' : full = (pre ++ [c]) ++ cs)
      by (rewrite <- app_assoc; exact Hfull).
    assert (Hlen' : Z.of_nat (length (pre ++ [c])) = Z.of_nat (length pre) + 1)
      by (rewrite length_app; simpl; lia).
    assert (Hc : full !! length pre = Some c)
      by (rewrite Hfull; apply list_lookup_middle; reflexivity).
    assert (Hin : (length pre < length full)%nat)
      by (eapply lookup_lt_Some, Hc).
    assert (Hmono : forall st0,
      Forall (fun j => 0 <= j < Z.of_nat (length pre) /\
                exists c, full !! Z.to_nat j = Some c /\ is_bracket c = true) st0 ->
      Forall (fun j => 0 <= j < Z.of_nat (length (pre ++ [c])) /\
                exists c, full !! Z.to_nat j = Some c /\ is_bracket c = true) st0).
    { intros st0 H0. eapply Forall_impl; [exact H0|]. simpl.
      intros j [Hj Hcj]. split; [lia|exact Hcj]. }
    rewrite !for_chars_cons.
    destruct (bracket_cases c) as [->|[->|[Hu Hd]]].
    + rewrite build_body_open, parse_body_open, <- Hlen'.
      apply (IH (pre ++ ["["%char])); [exact Hfull' | exact Hlen | |].
      * constructor; [|apply Hmono, Hst].
        split; [lia|]. exists "["%char. rewrite Nat2Z.id. auto.
      * intros k c' Hk. rewrite (Hag k c' Hk).
        destruct (is_bracket c') eqn:Hbr; [reflexivity|].
        rewrite length_app. simpl length.
        destruct (decide (k < length pre)%nat), (decide (k < length pre + 1)%nat);
          try reflexivity; try lia.
        assert (k = length pre) as -> by lia.
        rewrite Hc in Hk. injection Hk as <-. discriminate.
    + destruct st as [|j st].
      { rewrite build_body_close_empty, parse_body_close_empty. reflexivity. }
      apply Forall_cons in Hst as [(Hj & cj & Hcj & Hbj) Hst].
      rewrite build_body_close, parse_body_close, <- Hlen'.
      apply (IH (pre ++ ["]"%char])); [exact Hfull' | | |].
      * rewrite !length_insert. exact Hlen.
      * apply Hmono, Hst.
      * intros k c' Hk. rewrite Nat2Z.id.
        destruct (decide (k = length pre)) as [->|Hki].
        { rewrite list_lookup_insert_eq by (rewrite length_insert; lia).
          rewrite Hc in Hk. injection Hk as <-. simpl.
          rewrite lookup_insert_eq. reflexivity. }
        rewrite list_lookup_insert_ne by auto.
        rewrite lookup_insert_ne by lia.
        destruct (decide (k = Z.to_nat j)) as [->|Hkj].
        { rewrite list_lookup_insert_eq by lia.
          rewrite Hcj in Hk. injection Hk as <-. rewrite Hbj.
          rewrite Z2Nat.id by lia. rewrite lookup_insert_eq. reflexivity. }
        rewrite list_lookup_insert_ne by auto.
        rewrite lookup_insert_ne by lia.
        rewrite (Hag k c' Hk).
        destruct (is_bracket c'); [reflexivity|].
        rewrite length_app. simpl length.
        destruct (decide (k < length pre)%nat), (decide (k < length pre + 1)%nat);
          try reflexivity; lia.
    + assert (Hbr : is_bracket c = false) by (apply is_bracket_false; auto).
      rewrite build_body_other, parse_body_other, <- Hlen' by assumption.
      apply (IH (pre ++ [c])); [exact Hfull' | | |].
      * destruct (simple_instruction c); [rewrite length_insert|]; exact Hlen.
      * apply Hmono, Hst.
      * intros k c' Hk. rewrite Nat2Z.id. rewrite length_app. simpl length.
        destruct (decide (k = length pre)) as [->|Hki].
        { rewrite Hc in Hk. injection Hk as <-. rewrite Hbr.
          destruct (decide (length pre < length pre + 1)%nat); [|lia].
          pose proof (Hag _ _ Hc) as Hold. rewrite Hbr in Hold.
          destruct (decide (length pre < length pre)%nat); [lia|].
          destruct (simple_instruction c);
            [apply list_lookup_insert_eq; lia | exact Hold]. }
        assert (Hsame : match simple_instruction c with
                        | Some ins => <[length pre := Some ins]> ret
                        | None => ret
                        end !! k = ret !! k).
        { destruct (simple_instruction c);
            [apply list_lookup_insert_ne; auto | reflexivity]. }
        rewrite Hsame, (Hag k c' Hk).
        destruct (is_bracket c'); [reflexivity|].
        destruct (decide (k < length pre)%nat), (decide (k < length pre + 1)%nat);
          try reflexivity; lia.
Qed.

(** The loop sees a program only through [size()] and [operator[]] below
    it. *)
Lemma interpret_ext {C1 C2 : Type} `{BFCode C1} `{BFCode C2} (c1 : C1) (c2 : C2) :
  code_size c1 = code_size c2 ->
  (forall i, i < code_size c1 -> code_at c1 i = code_at c2 i) ->
  forall (fuel : nat) (st : BrainfuckState) (con : Console),
  interpret fuel c1 st con = interpret fuel c2 st con.
Proof.
  intros Hsize Hat. induction fuel as [|fuel IH]; intros st con; simpl;
    rewrite <- Hsize;
    destruct (Z.ltb_spec (program_counter st) (code_size c1)) as [Hlt|Hge];
    try reflexivity.
  assert (Hstep : step c1 st con = step c2 st con).
  { unfold step, fetch. rewrite (Hat _ Hlt). reflexivity. }
  rewrite Hstep. destruct (step c2 st con) as [[st' con']|f]; [apply IH|reflexivity].
Qed.

(** More fuel does not change what the loop comes to. *)
Lemma interpret_fuel_mono {C : Type} `{BFCode C} (code : C) (fuel extra : nat) :
  forall (st : BrainfuckState) (con : Console) (r : Result (BrainfuckState * Console)),
  interpret fuel code st con = Some r ->
  interpret (fuel + extra) code st con = Some r.
Proof.
  induction fuel as [|fuel IH]; intros st con r; simpl;
    destruct (Z.ltb_spec (program_counter st) (code_size code)) as [Hlt|Hge];
    try discriminate.
  - intros <-. apply interpret_halted, Hge.
  - destruct (step code st con) as [[st' con']|f]; [apply IH|auto].
  - auto.
Qed.

(** C4 fails on the code as worded: the loop has another way out. In the
    program built from [+[], of size 2, the first step completes and
    leaves the program counter at 1, below the size; the second step is
    begun there and its fetch throws [std::out_of_range], which ends the
    loop, for every fuel from 2 on, with no final state at all. So it is
    not so that the loop is left only with the program counter at or past
    the size. *)
Lemma dispatch_loop_left_by_exception :
  exists fc : FlyweightCode,
    FlyweightCode_new StdOutputter StdInputter "+[" = Ok fc /\
    code_size fc = 2 /\
    step fc {| data_counter := 0; program_counter := 0; field := [0] |}
         sample_console =
      Ok ({| data_counter := 0; program_counter := 1; field := [1] |},
          sample_console) /\
    step fc {| data_counter := 0; program_counter := 1; field := [1] |}
         sample_console = Raise out_of_range /\
    (forall fuel : nat,
       interpret (2 + fuel) fc
         {| data_counter := 0; program_counter := 0; field := [0] |}
         sample_console = Some (Raise out_of_range)) /\
    ~ (forall (fuel : nat) (r : Result (BrainfuckState * Console)),
         interpret fuel fc
           {| data_counter := 0; program_counter := 0; field := [0] |}
           sample_console = Some r ->
         exists s', r = Ok s' /\ code_size fc <= program_counter (fst s')).
Proof.
  exists {| m_code := "+["; m_bracket_map := ∅;
            m_inc := IncDataInstruction; m_dec := DecDataInstruction;
            m_next := NextDataInstruction; m_prev := PrevDataInstruction;
            m_in := InInstruction StdInputter;
            m_out := OutInstruction StdOutputter |}.
  assert (Hrun : interpret 2
            {| m_code := "+["; m_bracket_map := ∅;
               m_inc := IncDataInstruction; m_dec := DecDataInstruction;
               m_next := NextDataInstruction; m_prev := PrevDataInstruction;
               m_in := InInstruction StdInputter;
               m_out := OutInstruction StdOutputter |}
            {| data_counter := 0; program_counter := 0; field := [0] |}
            sample_console = Some (Raise out_of_range))
    by (vm_compute; reflexivity).
  split; [vm_compute; reflexivity|]. split; [reflexivity|].
  split; [vm_compute; reflexivity|]. split; [vm_compute; reflexivity|].
  split.
  - intros fuel. apply (interpret_fuel_mono _ 2 fuel). exact Hrun.
  - intros Hall. destruct (Hall 2%nat _ Hrun) as (s' & Hs' & _).
    discriminate Hs'.
Qed.

(** C10: on a balanced source the two builders give the same program.
    Both succeed; the programs have the same size; below it [operator[]]
    of the vector of [parse_code] and of [FlyweightCode] (with its default
    I/O policies) give the same instruction, so [execute] does the same on
    every state; and the dispatch loop comes to the same result on either
    program from every state. *)
Theorem builders_agree (code : string) :
  balanced code = true ->
  exists (ret : unique_ptr_code) (fc : FlyweightCode),
    parse_code code = Ok ret /\
    FlyweightCode_new StdOutputter StdInputter code = Ok fc /\
    code_size ret = code_size fc /\
    (forall i, i < code_size fc -> code_at ret i = code_at fc i) /\
    (forall i ins1 ins2,
       code_at ret i = Ok (Some ins1) -> code_at fc i = Ok (Some ins2) ->
       forall st con, execute ins1 st con = execute ins2 st con) /\
    (forall fuel st con, interpret fuel ret st con = interpret fuel fc st con).
Proof.
  intros Hbal. pose proof (proj1 (balanced_Balanced code) Hbal) as HB.
  destruct (build_Balanced _ HB 0 [] ∅) as (m & Hrun & _ & _).
  pose proof (builders_lockstep (chars code) (chars code) [] []
                (replicate (length (chars code)) None) ∅ eq_refl
                (length_replicate _ _) (Forall_nil_2 _)
                (slots_agree_start _)) as Hlock.
  simpl length in Hlock. change (Z.of_nat 0) with 0 in Hlock.
  rewrite Hrun in Hlock. destruct Hlock as (ret & Hparse & Hlen & Hag).
  pose proof (FlyweightCode_new_Ok StdOutputter StdInputter code [] m Hrun) as Hnew.
  eexists ret, _. split; [unfold parse_code; rewrite Hparse; reflexivity|].
  split; [exact Hnew|].
  assert (Hsize : code_size ret =
                  code_size {| m_code := code; m_bracket_map := m;
                    m_inc := IncDataInstruction; m_dec := DecDataInstruction;
                    m_next := NextDataInstruction; m_prev := PrevDataInstruction;
                    m_in := InInstruction StdInputter;
                    m_out := OutInstruction StdOutputter |}).
  { simpl. unfold code_length. rewrite Hlen. reflexivity. }
  assert (Hat : forall i, i < code_length code ->
            code_at ret i =
            code_at {| m_code := code; m_bracket_map := m;
                       m_inc := IncDataInstruction; m_dec := DecDataInstruction;
                       m_next := NextDataInstruction; m_prev := PrevDataInstruction;
                       m_in := InInstruction StdInputter;
                       m_out := OutInstruction StdOutputter |} i).
  { intros i Hi. unfold code_length in Hi.
    destruct (Z.leb_spec 0 i) as [Hnn|Hneg].
    - destruct (lookup_lt_is_Some_2 (chars code) (Z.to_nat i) ltac:(lia))
        as [c Hc].
      pose proof (Hag _ _ Hc) as Hslot.
      destruct (decide (Z.to_nat i < length (chars code))%nat); [|lia].
      simpl code_at.
      replace ((0 <=? i) && (i <? Z.of_nat (length ret))) with true
        by (symmetry; apply andb_true_iff; split; lia).
      rewrite Hslot. rewrite <- (Z2Nat.id i) at 2 by lia.
      destruct (is_bracket c) eqn:Hbr.
      + rewrite (FlyweightCode_at_bracket _ _ c) by (auto; apply is_bracket_true, Hbr).
        simpl. unfold bracket_map_at.
        destruct (balanced_bracket_entry _ _ _ _ _ _ HB Hnew Hc
                    (proj1 (is_bracket_true c) Hbr)) as [ins Hins].
        simpl in Hins. rewrite Hins. reflexivity.
      + rewrite (FlyweightCode_at_other _ _ c); auto.
    - simpl code_at. unfold FlyweightCode_at, string_at, code_length. simpl m_code.
      replace ((0 <=? i) && (i <? Z.of_nat (length ret))) with false
        by (symmetry; apply andb_false_iff; left; lia).
      replace ((0 <=? i) && (i <? Z.of_nat (length (chars code)))) with false
        by (symmetry; apply andb_false_iff; left; lia).
      replace (i =? Z.of_nat (length (chars code))) with false
        by (symmetry; apply Z.eqb_neq; lia).
      reflexivity. }
  split; [exact Hsize|]. split; [exact Hat|]. split.
  - intros i ins1 ins2 H1 H2 st con.
    destruct (Z.ltb_spec i (code_length code)) as [Hlt|Hge].
    + rewrite (Hat i Hlt), H2 in H1. injection H1 as <-. reflexivity.
    + simpl code_at in H1.
      replace ((0 <=? i) && (i <? Z.of_nat (length ret))) with false in H1;
        [discriminate|].
      symmetry. apply andb_false_iff. right. apply Z.ltb_ge.
      unfold code_length in Hge. lia.
  - apply interpret_ext; [exact Hsize|]. intros i Hi. apply Hat.
    rewrite Hsize in Hi. exact Hi.
Qed.

Lemma builders_agree_witness :
  exists (ret : unique_ptr_code) (fc : FlyweightCode),
    parse_code "+[-]" = Ok ret /\
    FlyweightCode_new StdOutputter StdInputter "+[-]" = Ok fc /\
    code_at ret 3 = code_at fc 3.
Proof.
  destruct (builders_agree "+[-]" eq_refl)
    as (ret & fc & Hparse & Hnew & _ & Hat & _).
  exists ret, fc. split; [exact Hparse|]. split; [exact Hnew|].
  apply Hat. injection Hnew as <-. vm_compute. reflexivity.
Defined.

(** ** The program [+[-]] *)

Lemma clear_loop_built :
  FlyweightCode_new StdOutputter StdInputter "+[-]" = Ok clear_loop.
Proof. vm_compute. reflexivity. Qed.

(** C6: run from the state [main] creates, the program [+[-]] built by
    [FlyweightCode] halts: four iterations of the dispatch loop bring the
    program counter to 4, past the end, with cell 0 holding 0 and all the
    rest of the state as at the start; more fuel changes nothing. *)
Theorem clear_loop_halts (con : Console) (extra : nat) :
  exists fc st,
    FlyweightCode_new StdOutputter StdInputter "+[-]" = Ok fc /\
    interpret (4 + extra) fc initial_state con = Some (Ok (st, con)) /\
    code_size fc <= program_counter st /\
    field st !! 0%nat = Some 0 /\
    st = with_program_counter initial_state 4.
Proof.
  exists clear_loop, (with_program_counter initial_state 4).
  split; [exact clear_loop_built|].
  split; [apply interpret_fuel_mono; vm_compute; reflexivity|].
  split; [vm_compute; discriminate|].
  split; reflexivity.
Qed.

(** ** Sources that are not balanced *)

(** The stack is as deep as the nesting: the loop stops on an empty stack
    exactly where the depth count fails. *)
Lemma build_scan (cs : list ascii) :
  forall (i : Z) (st : list Z) (m : bracket_map_t),
  match scan cs (length st) with
  | None =>
      for_chars build_bracket_map_body cs i (st, m) = Raise (undefined EmptyBack)
  | Some d =>
      exists st' m',
        for_chars build_bracket_map_body cs i (st, m) = Ok (st', m') /\
        length st' = d
  end.
Proof.
  induction cs as [|c cs IH]; intros i st m.
  - simpl. eauto.
  - rewrite for_chars_cons. destruct (bracket_cases c) as [->|[->|[Hu Hd]]].
    + rewrite scan_open, build_body_open. apply (IH (i + 1) (i :: st) m).
    + rewrite scan_close. destruct st as [|j st]; [reflexivity|].
      rewrite build_body_close. apply IH.
    + rewrite scan_other, build_body_other by assumption. apply IH.
Qed.

Lemma matching_close_shift (pre cs : list ascii) (k : nat) :
  matching_close (pre ++ cs) (length pre + k) =
    (fun j => length pre + j)%nat <$> matching_close cs k.
Proof.
  unfold matching_close.
  replace (S (length pre + k)) with (length pre + S k)%nat by lia.
  rewrite drop_app_add.
  destruct (nearest "[" "]" (drop (S k) cs) 0) as [x|]; [|reflexivity].
  simpl. f_equal. lia.
Qed.

(** No ["]"] is found after an opened text entered at any depth. *)
Lemma Opened_nearest (u : list ascii) :
  Opened u -> forall d, nearest "[" "]" u d = None.
Proof.
  induction 1 as [b Hb|b u Hb _ IH]; intros d.
  - rewrite <- (app_nil_r b), (nearest_through "[" "]") by (discriminate || exact Hb).
    reflexivity.
  - rewrite (nearest_through "[" "]") by (discriminate || exact Hb).
    rewrite nearest_up, IH. reflexivity.
Qed.

(** Over an opened text the loop only adds to the stack, writes no key
    outside the text and none at a ["["] without partner. *)
Lemma build_Opened (u : list ascii) :
  Opened u -> forall (i : Z) (st : list Z) (m : bracket_map_t),
  exists st' m',
    for_chars build_bracket_map_body u i (st, m) = Ok (st' ++ st, m') /\
    (forall k, k < i \/ i + Z.of_nat (length u) <= k -> m' !! k = m !! k) /\
    (forall k : nat, u !! k = Some "["%char -> matching_close u k = None ->
       m' !! (i + Z.of_nat k) = m !! (i + Z.of_nat k)).
Proof.
  induction 1 as [b Hb|b u Hb _ IH]; intros i st m.
  - destruct (build_Balanced b Hb i st m) as (m' & Hrun & Hframe & Hopen & _).
    exists [], m'. split; [exact Hrun|]. split; [exact Hframe|].
    intros k Hk Hnone. destruct (Hopen k Hk) as (j & Hj & _). congruence.
  - destruct (build_Balanced b Hb i st m) as (m1 & Hrun1 & Hframe1 & Hopen1 & _).
    set (p := i + Z.of_nat (length b)).
    destruct (IH (p + 1) (p :: st) m1) as (st2 & m2 & Hrun2 & Hframe2 & Hun2).
    exists (st2 ++ [p]), m2.
    assert (Hlen : Z.of_nat (length (b ++ "["%char :: u)) =
                   Z.of_nat (length b) + Z.of_nat (length u) + 1)
      by (rewrite length_app; simpl length; lia).
    split; [|split].
    + rewrite for_chars_app, Hrun1, for_chars_cons, build_body_open.
      fold p. rewrite Hrun2, <- app_assoc. reflexivity.
    + intros k Hk. rewrite Hlen in Hk.
      rewrite Hframe2 by (unfold p; lia). apply Hframe1. lia.
    + intros k Hk Hnone.
      destruct (decide (k < length b)%nat) as [Hlt|Hge].
      * rewrite lookup_app_l in Hk by exact Hlt.
        destruct (Hopen1 k Hk) as (j & Hj & _).
        rewrite (matching_close_app_l _ _ _ _ Hj) in Hnone. discriminate.
      * destruct (decide (k = length b)) as [->|Hne].
        { rewrite Hframe2 by (unfold p; lia). apply Hframe1. lia. }
        assert (Hpre : length (b ++ ["["%char]) = S (length b))
          by (rewrite length_app; simpl length; lia).
        assert (Hk' : k = (length (b ++ ["["%char]) + (k - length b - 1))%nat)
          by lia.
        rewrite (cons_middle "["%char b u), app_assoc in Hk, Hnone.
        rewrite Hk' in Hnone. rewrite matching_close_shift in Hnone.
        rewrite lookup_app_r in Hk by lia.
        replace (k - length (b ++ ["["%char]))%nat with (k - length b - 1)%nat
          in Hk by lia.
        destruct (matching_close u (k - length b - 1)) eqn:Hu; [discriminate|].
        replace (i + Z.of_nat k) with (p + 1 + Z.of_nat (k - length b - 1))
          by (unfold p; lia).
        rewrite (Hun2 _ Hk Hu). apply Hframe1. unfold p. lia.
Qed.

(** C1, as the code has it: an unbalanced source is never reported as
    malformed. Where some ["]"] has no partner the builder reaches
    [back()] on an empty stack, which C++ leaves undefined. Where only
    ["["]s lack a partner construction succeeds; such a ["["] exists, it
    has no entry in the bracket map, and fetching at its index throws
    [std::out_of_range], which ends the dispatch loop there. *)
Theorem unbalanced_source (O : Outputter) (I : Inputter) (code : string) :
  balanced code = false ->
  (unmatched_close code = true /\
   FlyweightCode_new O I code = Raise (undefined EmptyBack)) \/
  (unmatched_open_only code = true /\
   exists fc,
     FlyweightCode_new O I code = Ok fc /\
     (exists k : nat, chars code !! k = Some "["%char /\
        matching_close (chars code) k = None) /\
     (forall k : nat, chars code !! k = Some "["%char ->
        matching_close (chars code) k = None ->
        m_bracket_map fc !! Z.of_nat k = None /\
        code_at fc (Z.of_nat k) = Raise out_of_range /\
        forall (st : BrainfuckState) (con : Console) (fuel : nat),
          program_counter st = Z.of_nat k ->
          interpret (S fuel) fc st con = Some (Raise out_of_range))).
Proof.
  intros Hbal. unfold balanced, unmatched_close, unmatched_open_only in *.
  pose proof (build_scan (chars code) 0 [] ∅) as Hscan. simpl length in Hscan.
  destruct (scan (chars code) 0) as [[|d]|] eqn:Hd; [discriminate| |].
  - right. split; [reflexivity|].
    pose proof (scan_Opened _ _ Hd) as Hop.
    destruct (build_Opened _ Hop 0 [] ∅) as (st' & m' & Hrun & _ & Hun).
    rewrite app_nil_r in Hrun.
    pose proof (FlyweightCode_new_Ok O I code st' m' Hrun) as Hnew.
    eexists. split; [exact Hnew|]. split.
    + destruct Hop as [b Hb|b u Hb Hu].
      * rewrite (Balanced_scan _ 0 Hb) in Hd. discriminate.
      * exists (length b). split; [apply list_lookup_middle; reflexivity|].
        unfold matching_close.
        rewrite (cons_middle "["%char b u), app_assoc.
        rewrite drop_app_length' by (rewrite length_app; simpl length; lia).
        rewrite (Opened_nearest _ Hu). reflexivity.
    + intros k Hk Hnone.
      assert (Hm : m' !! Z.of_nat k = None).
      { pose proof (Hun k Hk Hnone) as Hm. rewrite Z.add_0_l in Hm.
        rewrite Hm. apply lookup_empty. }
      assert (Hat : code_at
                {| m_code := code; m_bracket_map := m';
                   m_inc := IncDataInstruction; m_dec := DecDataInstruction;
                   m_next := NextDataInstruction; m_prev := PrevDataInstruction;
                   m_in := InInstruction I; m_out := OutInstruction O |}
                (Z.of_nat k) = Raise out_of_range).
      { simpl code_at. rewrite (FlyweightCode_at_bracket _ k "[") by auto.
        simpl. unfold bracket_map_at. rewrite Hm. reflexivity. }
      split; [exact Hm|]. split; [exact Hat|].
      intros st con fuel Hpc. rewrite interpret_running.
      * rewrite step_unfold. unfold fetch. rewrite Hpc, Hat. reflexivity.
      * rewrite Hpc. simpl code_size. unfold code_length.
        apply lookup_lt_Some in Hk. lia.
  - left. split; [reflexivity|].
    unfold FlyweightCode_new, build_bracket_map. rewrite Hscan. reflexivity.
Qed.

Lemma unbalanced_source_witness :
  exists fc,
    FlyweightCode_new StdOutputter StdInputter "+[" = Ok fc /\
    code_at fc 1 = Raise out_of_range.
Proof.
  destruct (unbalanced_source StdOutputter StdInputter "+[" eq_refl)
    as [[Hclose _]|(_ & fc & Hnew & _ & Hall)].
  - vm_compute in Hclose. discriminate Hclose.
  - exists fc. split; [exact Hnew|]. apply (Hall 1%nat); reflexivity.
Defined.

(** C1 fails on the code. The source [+[] has an unmatched ["["], yet
    construction succeeds and the first step of the dispatch loop
    executes its [+], writing 1 into cell 0; run by [main] the process
    then ends by the exception of [std::map::at]. The source []] has an
    unmatched ["]"] and its construction is not a reported error
    either. *)
Lemma unbalanced_not_rejected :
  (unmatched_open_only "+[" = true /\
   ~ construction_rejects StdOutputter StdInputter "+[" /\
   exists fc st,
     FlyweightCode_new StdOutputter StdInputter "+[" = Ok fc /\
     step fc {| data_counter := 0; program_counter := 0; field := [0; 0] |}
          sample_console = Ok (st, sample_console) /\
     field st = [1; 0] /\
     main 2 "bf" ["prog.bf"%string] (fun _ => Some "+["%string) sample_console =
       Some (Raise out_of_range)) /\
  (unmatched_close "]" = true /\
   ~ construction_rejects StdOutputter StdInputter "]").
Proof.
  split; [split; [reflexivity|split]|split; [reflexivity|]].
  - intros (f & Hf & _). vm_compute in Hf. discriminate Hf.
  - eexists. eexists. split; [vm_compute; reflexivity|].
    split; [vm_compute; reflexivity|]. split; [reflexivity|].
    vm_compute. reflexivity.
  - intros (f & Hf & Hdet). vm_compute in Hf. injection Hf as <-.
    apply (Hdet EmptyBack). reflexivity.
Qed.

(** * Further properties *)

(** ** The I/O policies *)

Lemma hex_value_digit (n : Z) :
  0 <= n < 16 -> hex_value (hex_digit n) = Some n.
Proof.
  intros Hn. unfold hex_value, hex_digit.
  destruct (Z.ltb_spec n 10) as [Hlt|Hge].
  - replace ((48 <=? 48 + n) && (48 + n <=? 57)) with true
      by (symmetry; apply andb_true_iff; split; lia).
    f_equal. lia.
  - replace ((48 <=? 87 + n) && (87 + n <=? 57)) with false
      by (symmetry; apply andb_false_iff; right; lia).
    replace ((97 <=? 87 + n) && (87 + n <=? 102)) with true
      by (symmetry; apply andb_true_iff; split; lia).
    f_equal. lia.
Qed.

Lemma land_255 (x : Z) : Z.land x 255 = x mod 256.
Proof. change 255 with (Z.ones 8). rewrite Z.land_ones by lia. reflexivity. Qed.

(** X1: [HexOutputter] writes exactly two bytes for any argument, the
    codes of two lowercase hexadecimal digits, high digit first, and read
    back as base 16 they give the argument modulo 256; it leaves the
    input alone. *)
Theorem hex_outputter_round_trip (x : Z) (con : Console) :
  exists hi lo dh dl,
    out HexOutputter x con =
      Ok (tt, {| cin := cin con; cout := cout con ++ [hi; lo] |}) /\
    hex_value hi = Some dh /\ hex_value lo = Some dl /\
    16 * dh + dl = x mod 256.
Proof.
  exists (hex_digit (Z.land x 255 / 16)), (hex_digit (Z.land x 255 mod 16)),
         (Z.land x 255 / 16), (Z.land x 255 mod 16).
  rewrite land_255.
  pose proof (Z.mod_pos_bound x 256 ltac:(lia)) as Hx.
  split; [unfold out; rewrite land_255; reflexivity|].
  split; [apply hex_value_digit; split;
          [apply Z.div_pos; lia | apply Z.div_lt_upper_bound; lia]|].
  split; [apply hex_value_digit, Z.mod_pos_bound; lia|].
  symmetry. apply Z.div_mod. lia.
Qed.

(** X2: [StdInputter]. The byte read is always a [uint8_t]; at the end of
    the input it is 255 and the console is as before; otherwise exactly
    the first pending byte is consumed and, being a byte, returned as it
    is; the output is never touched. *)
Theorem std_inputter_reads (con : Console) :
  exists v con',
    in_ StdInputter con = Ok (v, con') /\
    0 <= v < 256 /\
    cout con' = cout con /\
    match cin con with
    | [] => v = 255 /\ con' = con
    | b :: rest => cin con' = rest /\ (0 <= b < 256 -> v = b)
    end.
Proof.
  unfold in_, getchar. unfold_M. destruct (cin con) as [|b rest] eqn:Hcin.
  - exists (wrap_u8 (-1)), con. repeat split; reflexivity || discriminate.
  - exists (wrap_u8 b), {| cin := rest; cout := cout con |}.
    split; [reflexivity|]. split; [apply Z.mod_pos_bound; lia|].
    split; [reflexivity|]. split; [reflexivity|].
    intros Hb. apply Z.mod_small, Hb.
Qed.

(** ** Moving the data counter and changing a cell *)

Lemma wrap_size_succ_pred (d : Z) :
  0 <= d < 2 ^ 64 ->
  wrap_size (wrap_size (d + 1) - 1) = d /\ wrap_size (wrap_size (d - 1) + 1) = d.
Proof.
  intros Hd. unfold wrap_size.
  rewrite Zminus_mod_idemp_l, Zplus_mod_idemp_l.
  replace (d + 1 - 1) with d by lia. replace (d - 1 + 1) with d by lia.
  rewrite Z.mod_small by exact Hd. auto.
Qed.

(** X3: advance-cursor and retreat-cursor undo each other on every state
    whose data counter is a [size_t], wrap-around at both ends of the
    range included; the console is not touched. *)
Theorem cursor_moves_inverse (st : BrainfuckState) (con : Console) :
  0 <= data_counter st < 2 ^ 64 ->
  (st1 ← execute NextDataInstruction st; execute PrevDataInstruction st1) con =
    Ok (st, con) /\
  (st1 ← execute PrevDataInstruction st; execute NextDataInstruction st1) con =
    Ok (st, con).
Proof.
  intros Hd. destruct (wrap_size_succ_pred _ Hd) as [H1 H2].
  destruct st as [d p f]. simpl in *. unfold_M. unfold with_data_counter. simpl.
  rewrite H1, H2. auto.
Qed.

Lemma cursor_moves_inverse_witness :
  (st1 ← execute PrevDataInstruction
           {| data_counter := 0; program_counter := 3; field := [1; 2] |};
   execute NextDataInstruction st1) sample_console =
    Ok ({| data_counter := 0; program_counter := 3; field := [1; 2] |},
        sample_console).
Proof.
  apply (cursor_moves_inverse
           {| data_counter := 0; program_counter := 3; field := [1; 2] |}
           sample_console).
  simpl. lia.
Defined.

Lemma off_tape_faults (ins : Instruction) (st : BrainfuckState) (con : Console) :
  moves_data_counter ins = false ->
  in_field st = false ->
  execute ins st con = Raise (undefined FieldBounds).
Proof.
  intros Hins Hout.
  destruct (execute ins st con) as [[st' con']|f] eqn:Hex.
  - destruct ins; try discriminate; simpl in Hex; unfold_M;
      unfold read_cell, write_cell in Hex; rewrite Hout in Hex;
      try discriminate.
    destruct i. unfold in_, getchar in Hex. unfold_M.
    destruct (cin con); discriminate.
  - apply execute_fault in Hex as [-> _]. reflexivity.
Qed.

(** X4: leaving the tape at either end. After retreat-cursor at data
    counter 0, which wraps to 2^64 - 1, and after advance-cursor at the
    last cell, every instruction that touches the tape is undefined (for
    a tape of fewer than 2^64 cells, as any allocated array); nothing
    checks or clamps the data counter. *)
Theorem cursor_leaves_tape (ins : Instruction) (st : BrainfuckState) (con : Console) :
  moves_data_counter ins = false ->
  Z.of_nat (length (field st)) < 2 ^ 64 ->
  (data_counter st = 0 ->
     (st1 ← execute PrevDataInstruction st; execute ins st1) con =
       Raise (undefined FieldBounds)) /\
  (data_counter st = Z.of_nat (length (field st)) - 1 ->
     (st1 ← execute NextDataInstruction st; execute ins st1) con =
       Raise (undefined FieldBounds)).
Proof.
  intros Hins Hlen. split; intros Hd; simpl; unfold_M;
    apply off_tape_faults; auto; unfold in_field, with_data_counter; simpl;
    rewrite Hd; apply andb_false_iff; right; apply Z.ltb_ge.
  - change (wrap_size (0 - 1)) with (2 ^ 64 - 1). lia.
  - replace (Z.of_nat (length (field st)) - 1 + 1)
      with (Z.of_nat (length (field st))) by lia.
    rewrite wrap_size_small by lia. lia.
Qed.

Lemma cursor_leaves_tape_witness :
  (st1 ← execute PrevDataInstruction
           {| data_counter := 0; program_counter := 0; field := [0; 0] |};
   execute IncDataInstruction st1) sample_console =
    Raise (undefined FieldBounds).
Proof.
  apply (cursor_leaves_tape IncDataInstruction
           {| data_counter := 0; program_counter := 0; field := [0; 0] |}
           sample_console); [reflexivity | vm_compute; reflexivity | reflexivity].
Defined.

(** X5: increment-cell and decrement-cell undo each other: on a state
    whose current cell holds a byte, either order gives the state back
    exactly, wrap-around at 255 and 0 included. *)
Theorem cell_changes_inverse (st : BrainfuckState) (con : Console) (v : Z) :
  read_cell st = Ok v ->
  0 <= v < 256 ->
  (st1 ← execute IncDataInstruction st; execute DecDataInstruction st1) con =
    Ok (st, con) /\
  (st1 ← execute DecDataInstruction st; execute IncDataInstruction st1) con =
    Ok (st, con).
Proof.
  intros Hread Hv.
  destruct (proj1 (read_cell_Ok st v) Hread) as [Hin Hcell].
  assert (Hback : forall w, with_field
            (with_field st (<[Z.to_nat (data_counter st) := w]> (field st)))
            (<[Z.to_nat (data_counter st) := v]>
               (<[Z.to_nat (data_counter st) := w]> (field st))) = st).
  { intros w. destruct st as [d p f]. unfold with_field. simpl in *.
    rewrite list_insert_insert_eq, list_insert_id by exact Hcell. reflexivity. }
  assert (Hin' : forall w, in_field
            (with_field st (<[Z.to_nat (data_counter st) := w]> (field st))) = true).
  { intros w. apply in_field_spec. simpl. rewrite length_insert.
    apply in_field_spec, Hin. }
  assert (Hup : wrap_u8 (wrap_u8 (v + 1) - 1) = v /\
                wrap_u8 (wrap_u8 (v - 1) + 1) = v).
  { unfold wrap_u8. rewrite Zminus_mod_idemp_l, Zplus_mod_idemp_l.
    replace (v + 1 - 1) with v by lia. replace (v - 1 + 1) with v by lia.
    rewrite Z.mod_small by exact Hv. auto. }
  destruct Hup as [Hup Hdown].
  split; simpl; unfold_M; rewrite Hread, (write_cell_Ok _ _ Hin);
    erewrite read_after_write by (apply write_cell_Ok, Hin);
    rewrite (write_cell_Ok _ _ (Hin' _)); simpl data_counter; simpl field;
    rewrite ?Hup, ?Hdown; f_equal; f_equal; apply Hback.
Qed.

Lemma cell_changes_inverse_witness :
  (st1 ← execute DecDataInstruction
           {| data_counter := 0; program_counter := 0; field := [0; 9] |};
   execute IncDataInstruction st1) sample_console =
    Ok ({| data_counter := 0; program_counter := 0; field := [0; 9] |},
        sample_console).
Proof.
  apply (cell_changes_inverse
           {| data_counter := 0; program_counter := 0; field := [0; 9] |}
           sample_console 0); [reflexivity | lia].
Defined.

(** ** What running a program keeps *)

Lemma execute_keeps (ins : Instruction) (st st' : BrainfuckState)
    (con con' : Console) :
  execute ins st con = Ok (st', con') ->
  length (field st') = length (field st) /\
  (0 <= data_counter st < 2 ^ 64 -> 0 <= data_counter st' < 2 ^ 64) /\
  (exists written, cout con' = cout con ++ written /\
     (length written <= 2)%nat /\ (is_output ins = false -> written = [])) /\
  (exists consumed, cin con = consumed ++ cin con' /\
     (length consumed <= 1)%nat /\ (is_input ins = false -> consumed = [])).
Proof.
  intros Hex.
  assert (Hnone : (exists written, cout con = cout con ++ written /\
                     (length written <= 2)%nat /\
                     (is_output ins = false -> written = [])) /\
                  (exists consumed, cin con = consumed ++ cin con /\
                     (length consumed <= 1)%nat /\
                     (is_input ins = false -> consumed = []))).
  { split; exists []; rewrite ?app_nil_r; simpl; auto with lia. }
  destruct ins; simpl in Hex; unfold_M.
  1,2: injection Hex as <- <-; simpl; split; [reflexivity|]; split;
       [intros _; apply Z.mod_pos_bound; lia | exact Hnone].
  1,2: destruct (read_cell st) as [v|]; [|discriminate];
       unfold write_cell in Hex; destruct (in_field st); [|discriminate];
       injection Hex as <- <-; simpl; split; [apply length_insert|];
       split; [auto | exact Hnone].
  1,2: destruct (read_cell st) as [v|]; [|discriminate];
       destruct v; simpl in Hex; injection Hex as <- <-; simpl;
       (split; [reflexivity|]); (split; [auto | exact Hnone]).
  - destruct i. unfold in_, getchar in Hex. unfold_M.
    destruct (cin con) as [|b rest] eqn:Hcin; unfold write_cell in Hex;
      destruct (in_field st); try discriminate; injection Hex as <- <-; simpl.
    + split; [apply length_insert|]. split; [auto|]. rewrite Hcin.
      split; [exists []; rewrite app_nil_r; simpl; auto with lia|].
      exists []. simpl. auto with lia.
    + split; [apply length_insert|]. split; [auto|].
      split; [exists []; rewrite app_nil_r; simpl; auto with lia|].
      exists [b]. simpl. split; [reflexivity|]. split; [lia|discriminate].
  - destruct (read_cell st) as [v|]; [|discriminate].
    destruct o; simpl in Hex; unfold putbytes in Hex; injection Hex as <- <-;
      simpl; (split; [reflexivity|]); (split; [auto|]); split.
    + exists [v]. simpl. split; [reflexivity|]. split; [lia|discriminate].
    + exists []. simpl. auto with lia.
    + eexists. simpl. split; [reflexivity|]. split; [simpl; lia|discriminate].
    + exists []. simpl. auto with lia.
Qed.

Section Running.
Context {C : Type} `{BFCode C}.

Lemma step_keeps (code : C) (st st' : BrainfuckState) (con con' : Console) :
  step code st con = Ok (st', con') ->
  length (field st') = length (field st) /\
  (0 <= data_counter st < 2 ^ 64 -> 0 <= data_counter st' < 2 ^ 64) /\
  0 <= program_counter st' < 2 ^ 64 /\
  (exists written, cout con' = cout con ++ written /\ (length written <= 2)%nat) /\
  (exists consumed, cin con = consumed ++ cin con' /\ (length consumed <= 1)%nat).
Proof.
  intros Hstep. pose proof (step_program_counter _ _ _ _ _ Hstep) as Hpc.
  rewrite step_unfold in Hstep.
  destruct (fetch code st) as [ins|]; [|discriminate].
  destruct (execute ins st con) as [[st1 con1]|] eqn:Hex; [|discriminate].
  injection Hstep as <- <-.
  destruct (execute_keeps _ _ _ _ _ Hex)
    as (Hlen & Hdc & (w & Hw & Hwl & _) & (c & Hc & Hcl & _)).
  simpl in *. repeat split; auto; try lia; eauto.
Qed.

(** X6: shape of every state a run reaches. After any number of
    iterations of the loop body the tape has the length it started with,
    a data counter that was a [size_t] still is one, and once an
    iteration has run the program counter is a [size_t] too. *)
Theorem run_keeps_shape (code : C) (k : nat) :
  forall (st st' : BrainfuckState) (con con' : Console),
  steps k code st con = Ok (st', con') ->
  length (field st') = length (field st) /\
  (0 <= data_counter st < 2 ^ 64 -> 0 <= data_counter st' < 2 ^ 64) /\
  ((0 < k)%nat -> 0 <= program_counter st' < 2 ^ 64).
Proof.
  induction k as [|k IH]; intros st st' con con' Hrun.
  - injection Hrun as <- <-. split; [reflexivity|]. split; [auto|].
    intros Hk. lia.
  - simpl in Hrun. unfold_M.
    destruct (step code st con) as [[st1 con1]|] eqn:Hstep; [|discriminate].
    destruct (step_keeps _ _ _ _ _ Hstep) as (Hlen & Hdc & Hpc & _).
    destruct (IH _ _ _ _ Hrun) as (Hlen' & Hdc' & Hpc').
    split; [congruence|]. split; [auto|]. intros _.
    destruct k as [|k]; [|apply Hpc'; lia].
    injection Hrun as <- <-. exact Hpc.
Qed.

(** X7: the console only moves forward. After [k] iterations the output
    is the old output followed by at most [2 * k] bytes, and the pending
    input is the old pending input without at most its first [k] bytes:
    nothing written is taken back and no input is skipped over or put
    back. *)
Theorem run_console_forward (code : C) (k : nat) :
  forall (st st' : BrainfuckState) (con con' : Console),
  steps k code st con = Ok (st', con') ->
  exists written consumed,
    cout con' = cout con ++ written /\ (length written <= 2 * k)%nat /\
    cin con = consumed ++ cin con' /\ (length consumed <= k)%nat.
Proof.
  induction k as [|k IH]; intros st st' con con' Hrun.
  - injection Hrun as <- <-. exists [], []. rewrite app_nil_r. simpl. auto with lia.
  - simpl in Hrun. unfold_M.
    destruct (step code st con) as [[st1 con1]|] eqn:Hstep; [|discriminate].
    destruct (step_keeps _ _ _ _ _ Hstep)
      as (_ & _ & _ & (w1 & Hw1 & Hwl1) & (c1 & Hc1 & Hcl1)).
    destruct (IH _ _ _ _ Hrun) as (w2 & c2 & Hw2 & Hwl2 & Hc2 & Hcl2).
    exists (w1 ++ w2), (c1 ++ c2).
    rewrite Hw2, Hw1, Hc1, Hc2, !length_app, <- !app_assoc.
    repeat split; auto; lia.
Qed.
End Running.

Lemma run_keeps_shape_witness :
  length [1; 0] = length [0; 0] /\
  (0 <= 0 < 2 ^ 64 -> 0 <= 0 < 2 ^ 64) /\
  ((0 < 2)%nat -> 0 <= 2 < 2 ^ 64).
Proof.
  assert (Hrun : steps 2 clear_loop
            {| data_counter := 0; program_counter := 0; field := [0; 0] |}
            sample_console =
          Ok ({| data_counter := 0; program_counter := 2; field := [1; 0] |},
              sample_console)) by (vm_compute; reflexivity).
  exact (run_keeps_shape clear_loop 2 _ _ _ _ Hrun).
Defined.

Lemma run_console_forward_witness :
  exists written consumed,
    [7; 7] = [] ++ written /\ (length written <= 2 * 3)%nat /\
    [7; 8] = consumed ++ [8] /\ (length consumed <= 3)%nat.
Proof.
  assert (Hrun : steps 3
            {| m_code := ",.."; m_bracket_map := ∅;
               m_inc := IncDataInstruction; m_dec := DecDataInstruction;
               m_next := NextDataInstruction; m_prev := PrevDataInstruction;
               m_in := InInstruction StdInputter;
               m_out := OutInstruction StdOutputter |}
            {| data_counter := 0; program_counter := 0; field := [0] |}
            {| cin := [7; 8]; cout := [] |} =
          Ok ({| data_counter := 0; program_counter := 3; field := [7] |},
              {| cin := [8]; cout := [7; 7] |})) by (vm_compute; reflexivity).
  exact (run_console_forward _ 3 _ _ _ _ Hrun).
Defined.

(** ** An invariant of [build_bracket_map] *)

Lemma entry_paired_mono (full : list ascii) (n n' : Z) (m m' : bracket_map_t)
    (k : Z) (ins : Instruction) :
  n <= n' ->
  (forall t, is_Some (m !! t) -> m' !! t = m !! t) ->
  entry_paired full n m k ins -> entry_paired full n' m' k ins.
Proof.
  intros Hn Hsame [Hk [(Hc & t & -> & Ht & Hct & Hmt)|(Hc & t & -> & Ht & Hct & Hmt)]];
    (split; [lia|]); [left|right]; (split; [exact Hc|]); exists t;
    repeat split; auto; try lia; rewrite Hsame; eauto.
Qed.

Lemma build_invariant_start (full : list ascii) : build_invariant full 0 [] ∅.
Proof.
  split; [constructor|]. split; [intros j Hj; inversion Hj|].
  split; [intros k ins Hk; rewrite lookup_empty in Hk; discriminate|].
  split; intros k Hk; lia.
Qed.

Lemma build_invariant_run (full cs : list ascii) :
  forall (pre : list ascii) (st st' : list Z) (m m' : bracket_map_t),
  full = pre ++ cs ->
  build_invariant full (Z.of_nat (length pre)) st m ->
  for_chars build_bracket_map_body cs (Z.of_nat (length pre)) (st, m) =
    Ok (st', m') ->
  build_invariant full (Z.of_nat (length full)) st' m'.
Proof.
  induction cs as [|c cs IH]; intros pre st st' m m' Hfull Hinv Hrun.
  - injection Hrun as <- <-. rewrite app_nil_r in Hfull. subst full. exact Hinv.
  - assert (Hfull' : full = (pre ++ [c]) ++ cs)
      by (rewrite <- app_assoc; exact Hfull).
    assert (Hlen' : Z.of_nat (length (pre ++ [c])) = Z.of_nat (length pre) + 1)
      by (rewrite length_app; simpl; lia).
    assert (Hc : full !! Z.to_nat (Z.of_nat (length pre)) = Some c)
      by (rewrite Nat2Z.id, Hfull; apply list_lookup_middle; reflexivity).
    set (i := Z.of_nat (length pre)) in *.
    assert (Hi : 0 <= i) by (unfold i; lia).
    destruct Hinv as (Hnd & Hst & Hent & Hcl & Hop).
    assert (Hmi : m !! i = None).
    { destruct (m !! i) as [ins|] eqn:Hm; [|reflexivity].
      destruct (Hent _ _ Hm) as [Hr _]. lia. }
    rewrite for_chars_cons in Hrun.
    destruct (bracket_cases c) as [->|[->|[Hu Hd]]].
    + rewrite build_body_open, <- Hlen' in Hrun.
      apply (IH _ _ _ _ _ Hfull') in Hrun; [exact Hrun|]. rewrite Hlen'.
      split; [|split; [|split; [|split]]].
      * apply NoDup_cons. split; [|exact Hnd].
        intros Hin. destruct (Hst _ Hin) as [Hr _]. lia.
      * intros j [->|Hj]%elem_of_cons; [auto with lia|].
        destruct (Hst _ Hj) as (Hr & Hcj & Hmj). auto with lia.
      * intros k ins Hk. apply (entry_paired_mono full i _ m); auto with lia.
      * intros k Hk Hck. apply Hcl; [|exact Hck].
        destruct (decide (k = i)) as [->|]; [congruence|lia].
      * intros k Hk Hck. destruct (decide (k = i)) as [->|Hne].
        -- right. apply elem_of_cons. auto.
        -- destruct (Hop k ltac:(lia) Hck) as [?|?]; [auto|].
           right. apply elem_of_cons. auto.
    + destruct st as [|j st]; [discriminate|].
      rewrite build_body_close, <- Hlen' in Hrun.
      apply (IH _ _ _ _ _ Hfull') in Hrun; [exact Hrun|]. rewrite Hlen'.
      apply NoDup_cons in Hnd as [Hjn Hnd].
      destruct (Hst j ltac:(apply elem_of_cons; auto)) as (Hj & Hcj & Hmj).
      assert (Hkeep : forall t, is_Some (m !! t) ->
                <[i := JumpNonzeroInstruction j]>
                  (<[j := JumpZeroInstruction i]> m) !! t = m !! t).
      { intros t [x Hx]. rewrite !lookup_insert_ne; [reflexivity|..];
          intros <-; congruence. }
      split; [exact Hnd|]. split; [|split; [|split]].
      * intros j' Hj'. destruct (Hst j' ltac:(apply elem_of_cons; auto))
          as (Hr & Hcj' & Hmj').
        split; [lia|]. split; [exact Hcj'|].
        rewrite !lookup_insert_ne; [exact Hmj'| |lia].
        intros <-. contradiction.
      * intros k ins Hk.
        destruct (decide (k = i)) as [->|Hki].
        { rewrite lookup_insert_eq in Hk. injection Hk as <-.
          split; [lia|]. right. split; [exact Hc|]. exists j.
          repeat split; auto; try lia.
          rewrite lookup_insert_ne by lia. apply lookup_insert_eq. }
        rewrite lookup_insert_ne in Hk by auto.
        destruct (decide (k = j)) as [->|Hkj].
        { rewrite lookup_insert_eq in Hk. injection Hk as <-.
          split; [lia|]. left. split; [exact Hcj|]. exists i.
          repeat split; auto; try lia. apply lookup_insert_eq. }
        rewrite lookup_insert_ne in Hk by auto.
        apply (entry_paired_mono full i _ m); auto with lia.
      * intros k Hk Hck. destruct (decide (k = i)) as [->|Hne].
        -- rewrite lookup_insert_eq. eauto.
        -- rewrite Hkeep; apply Hcl; auto; lia.
      * intros k Hk Hck. destruct (decide (k = i)) as [->|Hne]; [congruence|].
        destruct (Hop k ltac:(lia) Hck) as [Hs|[->|Hin]%elem_of_cons].
        -- left. rewrite Hkeep; assumption.
        -- left. rewrite lookup_insert_ne by lia. rewrite lookup_insert_eq. eauto.
        -- right. exact Hin.
    + rewrite build_body_other, <- Hlen' in Hrun by assumption.
      apply (IH _ _ _ _ _ Hfull') in Hrun; [exact Hrun|]. rewrite Hlen'.
      split; [exact Hnd|]. split; [|split; [|split]].
      * intros j Hj. destruct (Hst _ Hj) as (Hr & ?). auto with lia.
      * intros k ins Hk. apply (entry_paired_mono full i _ m); auto with lia.
      * intros k Hk Hck. apply Hcl; [|exact Hck].
        destruct (decide (k = i)) as [->|]; [congruence|lia].
      * intros k Hk Hck. apply Hop; [|exact Hck].
        destruct (decide (k = i)) as [->|]; [congruence|lia].
Qed.

Lemma built_invariant (O : Outputter) (I : Inputter) (code : string)
    (fc : FlyweightCode) :
  FlyweightCode_new O I code = Ok fc ->
  exists st, build_invariant (chars code) (code_length code) st (m_bracket_map fc).
Proof.
  intros Hnew. destruct (FlyweightCode_new_inv _ _ _ _ Hnew) as (st & Hrun & _).
  exists st. apply (build_invariant_run (chars code) (chars code) [] [] st ∅);
    [reflexivity | apply build_invariant_start | exact Hrun].
Qed.

(** X8: the bracket map of every program that construction returns,
    balanced source or not. Each entry sits at the index of a bracket: at
    a ["["] it is a jump-if-zero to a later ["]"], at a ["]"] a
    jump-if-nonzero to an earlier ["["], and the entry at the target is
    the jump back; no other index has an entry. *)
Theorem bracket_map_paired (O : Outputter) (I : Inputter) (code : string)
    (fc : FlyweightCode) (k : Z) (ins : Instruction) :
  FlyweightCode_new O I code = Ok fc ->
  m_bracket_map fc !! k = Some ins ->
  entry_paired (chars code) (code_length code) (m_bracket_map fc) k ins.
Proof.
  intros Hnew Hk. destruct (built_invariant _ _ _ _ Hnew) as (st & _ & _ & Hent & _).
  apply Hent, Hk.
Qed.

Lemma bracket_map_paired_witness :
  entry_paired (chars "+[-]") 4 (m_bracket_map clear_loop) 1 (JumpZeroInstruction 3).
Proof.
  apply (bracket_map_paired StdOutputter StdInputter "+[-]" clear_loop 1
           (JumpZeroInstruction 3)); reflexivity.
Defined.

(** ** What [FlyweightCode::operator[]] hands out *)

Lemma flyweight_instruction_kind (O : Outputter) (I : Inputter) (c : ascii)
    (ins : Instruction) :
  flyweight_instruction O I c = Some ins ->
  is_jump ins = false /\
  (c <> "."%char -> is_output ins = false) /\
  (c <> ","%char -> is_input ins = false).
Proof.
  unfold flyweight_instruction.
  repeat match goal with
         | |- context [(c =? ?x)%char] =>
             destruct (Ascii.eqb_spec c x) as [->|?];
             [intros [= <-]; repeat split; auto; intros Hc; contradiction|]
         end.
  discriminate.
Qed.

Lemma FlyweightCode_new_fields (O : Outputter) (I : Inputter) (code : string)
    (fc : FlyweightCode) :
  FlyweightCode_new O I code = Ok fc ->
  m_code fc = code /\
  m_inc fc = IncDataInstruction /\ m_dec fc = DecDataInstruction /\
  m_next fc = NextDataInstruction /\ m_prev fc = PrevDataInstruction /\
  m_in fc = InInstruction I /\ m_out fc = OutInstruction O.
Proof.
  intros Hnew. destruct (FlyweightCode_new_inv _ _ _ _ Hnew) as (_ & _ & ->).
  repeat split.
Qed.

Lemma FlyweightCode_at_simple (O : Outputter) (I : Inputter) (code : string)
    (fc : FlyweightCode) (k : nat) (c : ascii) :
  FlyweightCode_new O I code = Ok fc ->
  chars code !! k = Some c ->
  is_bracket c = false ->
  FlyweightCode_at fc (Z.of_nat k) = Ok (flyweight_instruction O I c).
Proof.
  intros Hnew Hk Hc.
  destruct (FlyweightCode_new_fields _ _ _ _ Hnew)
    as (Hcode & Hinc & Hdec & Hnext & Hprev & Hin & Hout).
  unfold FlyweightCode_at.
  rewrite Hcode, (string_at_lookup _ _ _ Hk), Hinc, Hdec, Hnext, Hprev, Hin, Hout.
  fold (is_bracket c). rewrite Hc. unfold flyweight_instruction.
  repeat match goal with
         | |- context [(c =? ?x)%char] =>
             destruct (c =? x)%char; [reflexivity|]
         end.
  reflexivity.
Qed.

Lemma code_at_outside (fc : FlyweightCode) (i : Z) :
  ~ 0 <= i < code_length (m_code fc) ->
  code_at fc i = Ok None \/ code_at fc i = Raise (undefined CodeBounds).
Proof.
  intros Hout. simpl code_at. unfold FlyweightCode_at, string_at.
  replace ((0 <=? i) && (i <? code_length (m_code fc))) with false
    by (symmetry; apply andb_false_iff; lia).
  destruct (i =? code_length (m_code fc)); auto.
Qed.

Lemma code_at_inv (O : Outputter) (I : Inputter) (code : string)
    (fc : FlyweightCode) (i : Z) (ins : Instruction) :
  FlyweightCode_new O I code = Ok fc ->
  code_at fc i = Ok (Some ins) ->
  exists c, 0 <= i < code_length code /\
    chars code !! Z.to_nat i = Some c /\
    if is_bracket c then m_bracket_map fc !! i = Some ins
    else flyweight_instruction O I c = Some ins.
Proof.
  intros Hnew Hat.
  destruct (FlyweightCode_new_fields _ _ _ _ Hnew) as (Hcode & _).
  destruct (decide (0 <= i < code_length code)) as [Hin|Hout].
  - unfold code_length in Hin.
    destruct (lookup_lt_is_Some_2 (chars code) (Z.to_nat i) ltac:(lia)) as [c Hc].
    exists c. split; [exact Hin|]. split; [exact Hc|].
    rewrite <- (Z2Nat.id i) in Hat by lia. simpl code_at in Hat.
    destruct (is_bracket c) eqn:Hbr.
    + rewrite (FlyweightCode_at_bracket fc _ c) in Hat
        by (rewrite ?Hcode; auto; apply is_bracket_true, Hbr).
      unfold bracket_map_at in Hat. rewrite Z2Nat.id in Hat by lia.
      destruct (m_bracket_map fc !! i); congruence.
    + rewrite (FlyweightCode_at_simple _ _ _ _ _ _ Hnew Hc Hbr) in Hat.
      congruence.
  - rewrite <- Hcode in Hout.
    destruct (code_at_outside fc i Hout) as [H|H]; rewrite H in Hat; discriminate.
Qed.

Lemma fetched_kind (O : Outputter) (I : Inputter) (code : string)
    (fc : FlyweightCode) (st : BrainfuckState) (ins : Instruction) :
  FlyweightCode_new O I code = Ok fc ->
  fetch fc st = Ok ins ->
  0 <= program_counter st < code_length code /\
  (is_jump ins = true ->
     exists t, 0 <= t < code_length code /\
       (ins = JumpZeroInstruction t \/ ins = JumpNonzeroInstruction t)) /\
  (lacks "[" code = true -> lacks "]" code = true -> is_jump ins = false) /\
  (lacks "." code = true -> is_output ins = false) /\
  (lacks "," code = true -> is_input ins = false).
Proof.
  intros Hnew Hfetch. unfold fetch in Hfetch.
  destruct (code_at fc (program_counter st)) as [[ins'|]|] eqn:Hat;
    try discriminate. injection Hfetch as ->.
  destruct (code_at_inv _ _ _ _ _ _ Hnew Hat) as (c & Hpc & Hc & Hins).
  assert (Hlacks : forall x, lacks x code = true -> c <> x).
  { intros x Hx ->. unfold lacks in Hx. rewrite forallb_forall in Hx.
    specialize (Hx x). rewrite Ascii.eqb_refl in Hx.
    discriminate Hx. apply list_elem_of_In, list_elem_of_lookup. eauto. }
  split; [exact Hpc|].
  destruct (is_bracket c) eqn:Hbr.
  - destruct (bracket_map_targets _ _ _ _ _ _ Hnew Hins)
      as [_ [(t & -> & Ht)|(t & -> & Ht)]].
    + repeat split; auto.
      * intros _. exists t. split; [lia|auto].
      * intros H1 H2. apply is_bracket_true in Hbr as [->| ->];
          [contradiction (Hlacks _ H1) | contradiction (Hlacks _ H2)];
          reflexivity.
    + repeat split; auto.
      * intros _. exists t. split; [lia|auto].
      * intros H1 H2. apply is_bracket_true in Hbr as [->| ->];
          [contradiction (Hlacks _ H1) | contradiction (Hlacks _ H2)];
          reflexivity.
  - destruct (flyweight_instruction_kind _ _ _ _ Hins) as (Hj & Ho & Hi).
    repeat split; auto.
    intros Hjump. congruence.
Qed.

(** X9: where a fetch can fail in a program that construction returned.
    Every ["]"] of the source has its jump-if-nonzero, whose target is a
    ["["]; so the exception of [std::map::at] can only come from the
    index of a ["["]. *)
Theorem fetch_throws_only_at_open (O : Outputter) (I : Inputter)
    (code : string) (fc : FlyweightCode) :
  FlyweightCode_new O I code = Ok fc ->
  (forall k : nat, chars code !! k = Some "]"%char ->
     exists t, code_at fc (Z.of_nat k) = Ok (Some (JumpNonzeroInstruction t)) /\
       0 <= t < Z.of_nat k /\ chars code !! Z.to_nat t = Some "["%char) /\
  (forall i, code_at fc i = Raise out_of_range ->
     0 <= i < code_length code /\ chars code !! Z.to_nat i = Some "["%char).
Proof.
  intros Hnew.
  destruct (built_invariant _ _ _ _ Hnew) as (st & _ & _ & Hent & Hcl & _).
  destruct (FlyweightCode_new_inv _ _ _ _ Hnew) as (_ & _ & Hfc).
  assert (Hcode : m_code fc = code) by (rewrite Hfc; reflexivity).
  split.
  - intros k Hk.
    assert (Hr : 0 <= Z.of_nat k < code_length code)
      by (apply lookup_lt_Some in Hk; unfold code_length; lia).
    destruct (Hcl _ Hr ltac:(rewrite Nat2Z.id; exact Hk)) as [ins Hins].
    destruct (Hent _ _ Hins) as [_ [(Hc & _)|(_ & t & -> & Ht & Hct & _)]].
    + rewrite Nat2Z.id in Hc. congruence.
    + exists t. split; [|auto]. simpl code_at.
      rewrite (FlyweightCode_at_bracket fc k "]") by (rewrite ?Hcode; auto).
      unfold bracket_map_at. rewrite Hins. reflexivity.
  - intros i Hat.
    destruct (decide (0 <= i < code_length code)) as [Hin|Hout].
    + split; [exact Hin|]. unfold code_length in Hin.
      destruct (lookup_lt_is_Some_2 (chars code) (Z.to_nat i) ltac:(lia)) as [c Hc].
      rewrite <- (Z2Nat.id i) in Hat by lia. simpl code_at in Hat.
      destruct (is_bracket c) eqn:Hbr.
      * rewrite (FlyweightCode_at_bracket fc _ c) in Hat
          by (rewrite ?Hcode; auto; apply is_bracket_true, Hbr).
        apply is_bracket_true in Hbr as [->| ->]; [exact Hc|].
        destruct (Hcl i ltac:(unfold code_length; lia) Hc) as [ins Hins].
        unfold bracket_map_at in Hat. rewrite Z2Nat.id, Hins in Hat by lia.
        discriminate.
      * rewrite (FlyweightCode_at_simple _ _ _ _ _ _ Hnew Hc Hbr) in Hat.
        discriminate.
    + rewrite <- Hcode in Hout.
      destruct (code_at_outside fc i Hout) as [H|H]; rewrite H in Hat;
        discriminate.
Qed.

Lemma fetch_throws_only_at_open_witness :
  chars "+[" !! Z.to_nat 1 = Some "["%char.
Proof.
  assert (Hnew : FlyweightCode_new StdOutputter StdInputter "+[" =
            Ok {| m_code := "+["; m_bracket_map := ∅;
                  m_inc := IncDataInstruction; m_dec := DecDataInstruction;
                  m_next := NextDataInstruction; m_prev := PrevDataInstruction;
                  m_in := InInstruction StdInputter;
                  m_out := OutInstruction StdOutputter |})
    by (vm_compute; reflexivity).
  apply (fetch_throws_only_at_open _ _ _ _ Hnew). vm_compute. reflexivity.
Defined.

(** ** Runs of a built program *)

Lemma step_inside (O : Outputter) (I : Inputter) (code : string)
    (fc : FlyweightCode) (st st' : BrainfuckState) (con con' : Console) :
  code_length code < 2 ^ 64 ->
  FlyweightCode_new O I code = Ok fc ->
  step fc st con = Ok (st', con') ->
  0 <= program_counter st < code_length code /\
  0 < program_counter st' <= code_length code /\
  exists ins, fetch fc st = Ok ins /\
    (is_jump ins = false -> program_counter st' = program_counter st + 1).
Proof.
  intros Hsize Hnew Hstep. rewrite step_unfold in Hstep.
  destruct (fetch fc st) as [ins|] eqn:Hfetch; [|discriminate].
  destruct (execute ins st con) as [[st1 con1]|] eqn:Hex; [|discriminate].
  injection Hstep as <- <-. simpl.
  destruct (fetched_kind _ _ _ _ _ _ Hnew Hfetch) as (Hpc & Hjump & _).
  destruct (execute_frame _ _ _ _ _ Hex) as (Hsame & Hmoved & _).
  split; [exact Hpc|].
  assert (Hst1 : 0 <= program_counter st1 < code_length code).
  { destruct (decide (program_counter st1 = program_counter st)) as [->|Hne];
      [exact Hpc|].
    destruct (Hmoved Hne) as (t & v & _ & Ht & Hins).
    assert (Hj : is_jump ins = true) by (destruct Hins as [[-> _]|[-> _]]; reflexivity).
    destruct (Hjump Hj) as (t' & Ht' & Hins').
    destruct Hins as [[-> _]|[-> _]], Hins' as [[= <-]|[= <-]]; lia. }
  rewrite wrap_size_small by lia. split; [lia|].
  exists ins. split; [reflexivity|]. intros Hj. rewrite (Hsame Hj). reflexivity.
Qed.

Lemma interpret_no_fuel {C : Type} `{BFCode C} (code : C) (st : BrainfuckState)
    (con : Console) :
  program_counter st < code_size code -> interpret 0 code st con = None.
Proof. intros Hlt. simpl. rewrite (proj2 (Z.ltb_lt _ _) Hlt). reflexivity. Qed.

(** X10: the program counter never runs past the program. For a program
    that construction returned, started with the program counter at an
    index of the program or at its end, the loop returns only with the
    program counter equal to the size, never beyond it. *)
Theorem loop_ends_at_size (O : Outputter) (I : Inputter) (code : string)
    (fc : FlyweightCode) (fuel : nat) :
  code_length code < 2 ^ 64 ->
  FlyweightCode_new O I code = Ok fc ->
  forall (st st' : BrainfuckState) (con con' : Console),
  0 <= program_counter st <= code_size fc ->
  interpret fuel fc st con = Some (Ok (st', con')) ->
  program_counter st' = code_size fc.
Proof.
  intros Hsize Hnew.
  destruct (FlyweightCode_new_fields _ _ _ _ Hnew) as (Hcode & _).
  assert (Hsz : code_size fc = code_length code) by (simpl; rewrite Hcode; reflexivity).
  induction fuel as [|fuel IH]; intros st st' con con' Hpc Hrun.
  - destruct (Z.ltb_spec (program_counter st) (code_size fc)) as [Hlt|Hge].
    + rewrite interpret_no_fuel in Hrun by exact Hlt. discriminate.
    + rewrite interpret_halted in Hrun by exact Hge. injection Hrun as <- <-. lia.
  - destruct (Z.ltb_spec (program_counter st) (code_size fc)) as [Hlt|Hge].
    + rewrite interpret_running in Hrun by exact Hlt.
      destruct (step fc st con) as [[st1 con1]|] eqn:Hstep; [|discriminate].
      apply (IH st1 st' con1 con'); [|exact Hrun].
      destruct (step_inside _ _ _ _ _ _ _ _ Hsize Hnew Hstep) as (_ & H1 & _).
      lia.
    + rewrite interpret_halted in Hrun by exact Hge. injection Hrun as <- <-. lia.
Qed.

Lemma loop_ends_at_size_witness :
  program_counter (with_program_counter initial_state 4) = code_size clear_loop.
Proof.
  assert (Hrun : interpret 4 clear_loop initial_state sample_console =
                 Some (Ok (with_program_counter initial_state 4, sample_console)))
    by (vm_compute; reflexivity).
  assert (Hnew : FlyweightCode_new StdOutputter StdInputter "+[-]" = Ok clear_loop)
    by (vm_compute; reflexivity).
  apply (loop_ends_at_size StdOutputter StdInputter "+[-]" clear_loop 4)
    with (st := initial_state) (con := sample_console) (con' := sample_console);
    [vm_compute; reflexivity | exact Hnew | vm_compute; split; discriminate
    | exact Hrun].
Defined.

Lemma lacks_scan (code : string) (d : nat) :
  lacks "[" code = true -> lacks "]" code = true -> scan (chars code) d = Some d.
Proof.
  unfold lacks. generalize (chars code). intros cs.
  induction cs as [|c cs IH]; simpl; [reflexivity|].
  intros [H1 Hcs1]%andb_true_iff [H2 Hcs2]%andb_true_iff.
  apply negb_true_iff in H1, H2. rewrite H1, H2. auto.
Qed.

(** X11: a source without brackets always terminates. Construction
    succeeds, and from any state whose program counter is inside the
    program the loop comes to an end (a return, or an undefined
    operation) within as many iterations as characters remain; when it
    returns, every remaining character has been executed once, in
    order. *)
Theorem straight_line_terminates (O : Outputter) (I : Inputter) (code : string) :
  lacks "[" code = true ->
  lacks "]" code = true ->
  code_length code < 2 ^ 64 ->
  exists fc,
    FlyweightCode_new O I code = Ok fc /\
    forall (st : BrainfuckState) (con : Console),
    0 <= program_counter st <= code_size fc ->
    exists r,
      interpret (Z.to_nat (code_size fc - program_counter st)) fc st con = Some r /\
      forall st' con', r = Ok (st', con') ->
        steps (Z.to_nat (code_size fc - program_counter st)) fc st con =
          Ok (st', con').
Proof.
  intros Hopen Hclose Hsize.
  pose proof (build_scan (chars code) 0 [] ∅) as Hscan. simpl length in Hscan.
  rewrite (lacks_scan code 0 Hopen Hclose) in Hscan.
  destruct Hscan as (st0 & m & Hrun & _).
  pose proof (FlyweightCode_new_Ok O I code st0 m Hrun) as Hnew.
  eexists. split; [exact Hnew|].
  set (fc := {| m_code := code; m_bracket_map := m;
                m_inc := IncDataInstruction; m_dec := DecDataInstruction;
                m_next := NextDataInstruction; m_prev := PrevDataInstruction;
                m_in := InInstruction I; m_out := OutInstruction O |}) in *.
  assert (Hgen : forall (n : nat) (st : BrainfuckState) (con : Console),
            0 <= program_counter st <= code_size fc ->
            n = Z.to_nat (code_size fc - program_counter st) ->
            exists r, interpret n fc st con = Some r /\
              forall st' con', r = Ok (st', con') -> steps n fc st con = Ok (st', con')).
  { induction n as [|n IH]; intros st con Hpc Hn.
    - exists (Ok (st, con)). split; [apply interpret_halted; lia|].
      intros st' con' [= <- <-]. reflexivity.
    - rewrite interpret_running by lia. simpl steps. unfold_M.
      destruct (step fc st con) as [[st1 con1]|f] eqn:Hstep.
      + destruct (step_inside _ _ _ _ _ _ _ _ Hsize Hnew Hstep)
          as (_ & _ & ins & Hfetch & Hnext).
        destruct (fetched_kind _ _ _ _ _ _ Hnew Hfetch) as (_ & _ & Hnj & _).
        specialize (Hnext (Hnj Hopen Hclose)).
        apply IH; simpl in *; lia.
      + exists (Raise f). split; [reflexivity|]. discriminate. }
  intros st con Hpc. apply Hgen; [exact Hpc|reflexivity].
Qed.

Lemma straight_line_terminates_witness :
  exists fc,
    FlyweightCode_new StdOutputter StdInputter "+>+" = Ok fc /\
    exists r, interpret 3 fc {| data_counter := 0; program_counter := 0; field := [0; 0] |}
                sample_console = Some r.
Proof.
  destruct (straight_line_terminates StdOutputter StdInputter "+>+"
              eq_refl eq_refl ltac:(vm_compute; reflexivity)) as (fc & Hnew & Hall).
  exists fc. split; [exact Hnew|].
  destruct (Hall {| data_counter := 0; program_counter := 0; field := [0; 0] |}
              sample_console) as (r & Hr & _).
  - injection Hnew as <-. vm_compute. split; discriminate.
  - exists r. injection Hnew as <-. exact Hr.
Defined.

(** X12: a program reads only where its source has [,] and writes only
    where it has [.]. After any number of iterations of a built program
    whose source has no [.], the output is as it was; with no [,] in the
    source, the pending input is as it was. *)
Theorem io_only_where_written (O : Outputter) (I : Inputter) (code : string)
    (fc : FlyweightCode) (k : nat) :
  FlyweightCode_new O I code = Ok fc ->
  forall (st st' : BrainfuckState) (con con' : Console),
  steps k fc st con = Ok (st', con') ->
  (lacks "." code = true -> cout con' = cout con) /\
  (lacks "," code = true -> cin con' = cin con).
Proof.
  intros Hnew. induction k as [|k IH]; intros st st' con con' Hrun.
  - injection Hrun as <- <-. auto.
  - simpl in Hrun. unfold_M.
    destruct (step fc st con) as [[st1 con1]|] eqn:Hstep; [|discriminate].
    destruct (IH _ _ _ _ Hrun) as [Hout Hin].
    rewrite step_unfold in Hstep.
    destruct (fetch fc st) as [ins|] eqn:Hfetch; [|discriminate].
    destruct (execute ins st con) as [[st2 con2]|] eqn:Hex; [|discriminate].
    injection Hstep as <- <-.
    destruct (fetched_kind _ _ _ _ _ _ Hnew Hfetch) as (_ & _ & _ & Hno & Hni).
    destruct (execute_keeps _ _ _ _ _ Hex)
      as (_ & _ & (w & Hw & _ & Hw0) & (c & Hc & _ & Hc0)).
    split; intros Hl.
    + rewrite (Hout Hl), Hw, (Hw0 (Hno Hl)). apply app_nil_r.
    + rewrite (Hin Hl), Hc, (Hc0 (Hni Hl)). reflexivity.
Qed.

Lemma io_only_where_written_witness :
  cout {| cin := [8]; cout := [] |} = cout {| cin := [7; 8]; cout := [] |}.
Proof.
  assert (Hnew : FlyweightCode_new StdOutputter StdInputter ",+" =
            Ok {| m_code := ",+"; m_bracket_map := ∅;
                  m_inc := IncDataInstruction; m_dec := DecDataInstruction;
                  m_next := NextDataInstruction; m_prev := PrevDataInstruction;
                  m_in := InInstruction StdInputter;
                  m_out := OutInstruction StdOutputter |})
    by (vm_compute; reflexivity).
  assert (Hrun : steps 2
            {| m_code := ",+"; m_bracket_map := ∅;
               m_inc := IncDataInstruction; m_dec := DecDataInstruction;
               m_next := NextDataInstruction; m_prev := PrevDataInstruction;
               m_in := InInstruction StdInputter;
               m_out := OutInstruction StdOutputter |}
            {| data_counter := 0; program_counter := 0; field := [0] |}
            {| cin := [7; 8]; cout := [] |} =
          Ok ({| data_counter := 0; program_counter := 2; field := [8] |},
              {| cin := [8]; cout := [] |})) by (vm_compute; reflexivity).
  apply (io_only_where_written _ _ _ _ 2 Hnew _ _ _ _ Hrun). reflexivity.
Defined.

(** ** Loops of a balanced program *)

Lemma balanced_entries (O : Outputter) (I : Inputter) (code : string)
    (fc : FlyweightCode) :
  Balanced (chars code) ->
  FlyweightCode_new O I code = Ok fc ->
  resolves (chars code) 0 (m_bracket_map fc).
Proof.
  intros Hbal Hnew.
  destruct (build_Balanced _ Hbal 0 [] ∅) as (m & Hrun & _ & Hres).
  rewrite (FlyweightCode_new_Ok O I code [] m Hrun) in Hnew.
  injection Hnew as <-. exact Hres.
Qed.

(** X13: one iteration at a bracket of a balanced program. At a ["["]
    with the current cell zero the whole loop is skipped: the next
    instruction is the one after the matching ["]"]. At a ["]"] with the
    current cell nonzero the loop is repeated from the first instruction
    of its body, the one after the matching ["["]. In the two other cases
    the run goes on with the next instruction. Nothing but the program
    counter changes. *)
Theorem bracket_step (O : Outputter) (I : Inputter) (code : string)
    (fc : FlyweightCode) (st : BrainfuckState) (con : Console) (v : Z) (k : nat) :
  balanced code = true ->
  code_length code < 2 ^ 64 ->
  FlyweightCode_new O I code = Ok fc ->
  program_counter st = Z.of_nat k ->
  read_cell st = Ok v ->
  (chars code !! k = Some "["%char ->
     exists j, matching_close (chars code) k = Some j /\
       step fc st con =
         Ok (with_program_counter st
               (if v =? 0 then Z.of_nat j + 1 else Z.of_nat k + 1), con)) /\
  (chars code !! k = Some "]"%char ->
     exists i, matching_open (chars code) k = Some i /\
       step fc st con =
         Ok (with_program_counter st
               (if v =? 0 then Z.of_nat k + 1 else Z.of_nat i + 1), con)).
Proof.
  intros Hbal Hsize Hnew Hpc Hv. apply balanced_Balanced in Hbal.
  destruct (balanced_entries _ _ _ _ Hbal Hnew) as [Hopen Hclose].
  destruct (FlyweightCode_new_fields _ _ _ _ Hnew) as (Hcode & _).
  assert (Hfetch : forall c ins, chars code !! k = Some c ->
            c = "["%char \/ c = "]"%char ->
            m_bracket_map fc !! Z.of_nat k = Some ins -> fetch fc st = Ok ins).
  { intros c ins Hc Hbr Hm. unfold fetch. rewrite Hpc. simpl code_at.
    rewrite (FlyweightCode_at_bracket fc k c) by (rewrite ?Hcode; auto).
    unfold bracket_map_at. rewrite Hm. reflexivity. }
  unfold code_length in Hsize. split; intros Hc.
  - destruct (Hopen k Hc) as (j & Hj & _ & Hm). rewrite !Z.add_0_l in Hm.
    exists j. split; [exact Hj|]. apply matching_close_lt in Hj.
    rewrite step_unfold, (Hfetch _ _ Hc (or_introl eq_refl) Hm).
    simpl execute. unfold_M. rewrite Hv.
    destruct v; simpl; unfold with_program_counter; simpl;
      rewrite ?Hpc, wrap_size_small by lia; reflexivity.
  - destruct (Hclose k Hc) as (i & Hi & _ & Hm). rewrite !Z.add_0_l in Hm.
    exists i. split; [exact Hi|]. apply matching_open_lt in Hi.
    pose proof (lookup_lt_Some _ _ _ Hc) as Hk.
    rewrite step_unfold, (Hfetch _ _ Hc (or_intror eq_refl) Hm).
    simpl execute. unfold_M. rewrite Hv.
    destruct v; simpl; unfold with_program_counter; simpl;
      rewrite ?Hpc, wrap_size_small by lia; reflexivity.
Qed.

Lemma bracket_step_witness :
  exists j, matching_close (chars "+[-]") 1 = Some j /\
    step clear_loop {| data_counter := 0; program_counter := 1; field := [0] |}
         sample_console =
      Ok (with_program_counter
            {| data_counter := 0; program_counter := 1; field := [0] |}
            (Z.of_nat j + 1), sample_console).
Proof.
  apply (bracket_step StdOutputter StdInputter "+[-]" clear_loop
           {| data_counter := 0; program_counter := 1; field := [0] |}
           sample_console 0 1);
    [reflexivity | vm_compute; reflexivity | vm_compute; reflexivity
    | reflexivity | reflexivity | reflexivity].
Defined.

(** ** The source filter *)

Lemma chars_app (a b : string) : chars (a +:+ b) = chars a ++ chars b.
Proof.
  unfold chars. induction a as [|c a IH]; simpl; [reflexivity|].
  rewrite IH. reflexivity.
Qed.

Lemma string_of_list_app (l1 l2 : list ascii) :
  string_of_list_ascii (l1 ++ l2) =
    string_of_list_ascii l1 +:+ string_of_list_ascii l2.
Proof. induction l1 as [|c l1 IH]; simpl; [reflexivity|]. rewrite IH. reflexivity. Qed.

Lemma filter_sublist (f : ascii -> bool) (l : list ascii) :
  List.filter f l `sublist_of` l.
Proof.
  induction l as [|c l IH]; simpl; [constructor|].
  destruct (f c); [apply sublist_skip | apply sublist_cons]; exact IH.
Qed.

(** X14: what the filter lets through. The filtered text is the raw text
    with characters left out, in the same order; all its characters are
    operation characters; and every operation character of the raw text
    is still there, as often as before. *)
Theorem filter_source_keeps (raw : string) :
  chars (filter_source raw) `sublist_of` chars raw /\
  forallb is_bf_char (chars (filter_source raw)) = true /\
  forall c, is_bf_char c = true ->
    count_occ ascii_dec (chars (filter_source raw)) c =
    count_occ ascii_dec (chars raw) c.
Proof.
  unfold filter_source. rewrite chars_of_list.
  split; [apply filter_sublist|]. split; [apply forallb_filter_same|].
  intros c Hc. induction (chars raw) as [|x l IH]; simpl; [reflexivity|].
  destruct (is_bf_char x) eqn:Hx; simpl.
  - destruct (ascii_dec x c); rewrite IH; reflexivity.
  - destruct (ascii_dec x c) as [->|]; [congruence|exact IH].
Qed.

Lemma filter_source_keeps_witness :
  count_occ ascii_dec (chars (filter_source "a+b+")) "+"%char =
  count_occ ascii_dec (chars "a+b+") "+"%char.
Proof. apply (filter_source_keeps "a+b+"). reflexivity. Defined.

(** X15: filtering works piece by piece: the filter of two texts put
    together is the two filtered texts put together, so a source may be
    filtered in chunks as it is read. *)
Theorem filter_source_app (a b : string) :
  filter_source (a +:+ b) = filter_source a +:+ filter_source b.
Proof.
  unfold filter_source. rewrite chars_app, List.filter_app.
  apply string_of_list_app.
Qed.

Lemma scan_filter (cs : list ascii) (d : nat) :
  scan (List.filter is_bf_char cs) d = scan cs d.
Proof.
  revert d. induction cs as [|c cs IH]; intros d; simpl; [reflexivity|].
  destruct (bracket_cases c) as [->|[->|[Hu Hd]]].
  - simpl. apply IH.
  - simpl. destruct d; [reflexivity|apply IH].
  - rewrite (proj2 (Ascii.eqb_neq _ _) Hu), (proj2 (Ascii.eqb_neq _ _) Hd).
    destruct (is_bf_char c); [|apply IH].
    rewrite scan_other by assumption. apply IH.
Qed.

(** X16: filtering does not change the bracket structure: a raw text and
    its filtered text are balanced, have an unmatched ["]"], or have only
    unmatched ["["]s, together. *)
Theorem filter_source_brackets (raw : string) :
  balanced (filter_source raw) = balanced raw /\
  unmatched_close (filter_source raw) = unmatched_close raw /\
  unmatched_open_only (filter_source raw) = unmatched_open_only raw.
Proof.
  unfold balanced, unmatched_close, unmatched_open_only, filter_source.
  rewrite chars_of_list, scan_filter. auto.
Qed.

(** ** Runs of [main] *)

Lemma main_runs (fuel : nat) (argv0 path : string) (rest : list string)
    (fs : string -> option string) (con : Console) :
  main fuel argv0 (path :: rest) fs con =
    match FlyweightCode_new StdOutputter StdInputter
            (filter_source (default EmptyString (fs path))) with
    | Raise f => Some (Raise f)
    | Ok code =>
        match interpret fuel code initial_state con with
        | None => None
        | Some (Raise f) => Some (Raise f)
        | Some (Ok (state', con')) =>
            Some (Ok {| exit_status := 0; err_stream := EmptyString;
                        opened := [path]; final_state := Some state';
                        final_console := con' |})
        end
    end.
Proof.
  unfold main.
  replace (Z.of_nat (length (argv0 :: path :: rest)) <? 2) with false
    by (symmetry; apply Z.ltb_ge; simpl length; lia).
  reflexivity.
Qed.

Lemma filter_nothing (raw : string) :
  forallb (fun c => negb (is_bf_char c)) (chars raw) = true ->
  filter_source raw = EmptyString.
Proof.
  unfold filter_source. induction (chars raw) as [|c l IH]; simpl;
    [reflexivity|].
  intros [Hc Hl]%andb_true_iff. apply negb_true_iff in Hc. rewrite Hc. auto.
Qed.

(** X17: a file that cannot be opened, or that holds no operation
    character, is run as the empty program: whatever the fuel, the input
    and any further arguments, [main] returns 0 with nothing written to
    either stream and the state as created. No error is reported for the
    missing file. *)
Theorem main_empty_program (fuel : nat) (argv0 path : string)
    (rest : list string) (fs : string -> option string) (con : Console) :
  match fs path with
  | None => True
  | Some raw => forallb (fun c => negb (is_bf_char c)) (chars raw) = true
  end ->
  main fuel argv0 (path :: rest) fs con =
    Some (Ok {| exit_status := 0; err_stream := EmptyString;
                opened := [path]; final_state := Some initial_state;
                final_console := con |}).
Proof.
  intros Hfile.
  assert (Hsrc : filter_source (default EmptyString (fs path)) = EmptyString).
  { destruct (fs path) as [raw|]; [apply filter_nothing, Hfile|reflexivity]. }
  rewrite main_runs, Hsrc.
  change (FlyweightCode_new StdOutputter StdInputter EmptyString)
    with (Ok {| m_code := EmptyString; m_bracket_map := ∅;
                m_inc := IncDataInstruction; m_dec := DecDataInstruction;
                m_next := NextDataInstruction; m_prev := PrevDataInstruction;
                m_in := InInstruction StdInputter;
                m_out := OutInstruction StdOutputter |}).
  cbv beta iota. rewrite interpret_halted; [reflexivity|].
  vm_compute. discriminate.
Qed.

Lemma main_empty_program_witness :
  main 0 "bf" ["missing.bf"%string] (fun _ => None) sample_console =
    Some (Ok {| exit_status := 0; err_stream := EmptyString;
                opened := ["missing.bf"%string];
                final_state := Some initial_state;
                final_console := sample_console |}).
Proof.
  apply (main_empty_program 0 "bf" "missing.bf" [] (fun _ => None) sample_console).
  exact I.
Defined.

(** X18: what a run of [main] on a file with balanced brackets can come
    to. The process never ends by the exception of [std::map::at] nor by
    a null instruction or an index outside the program: either the loop
    is still running when the fuel is spent, or [main] returns 0 with
    nothing on the error stream, or an instruction reached outside the
    tape. *)
Theorem main_balanced_outcomes (fuel : nat) (argv0 path : string)
    (rest : list string) (fs : string -> option string) (con : Console)
    (raw : string) :
  fs path = Some raw ->
  balanced raw = true ->
  main fuel argv0 (path :: rest) fs con = None \/
  (exists st' con',
     main fuel argv0 (path :: rest) fs con =
       Some (Ok {| exit_status := 0; err_stream := EmptyString;
                   opened := [path]; final_state := Some st';
                   final_console := con' |})) \/
  main fuel argv0 (path :: rest) fs con = Some (Raise (undefined FieldBounds)).
Proof.
  intros Hfile Hbal. rewrite main_runs, Hfile. simpl default.
  assert (Hbal' : balanced (filter_source raw) = true).
  { unfold balanced, filter_source. rewrite chars_of_list, scan_filter. exact Hbal. }
  pose proof (proj1 (balanced_Balanced _) Hbal') as HB.
  destruct (build_Balanced _ HB 0 [] ∅) as (m & Hrun & _).
  pose proof (FlyweightCode_new_Ok StdOutputter StdInputter _ [] m Hrun) as Hnew.
  rewrite Hnew.
  assert (Hwf : well_formed
            {| m_code := filter_source raw; m_bracket_map := m;
               m_inc := IncDataInstruction; m_dec := DecDataInstruction;
               m_next := NextDataInstruction; m_prev := PrevDataInstruction;
               m_in := InInstruction StdInputter;
               m_out := OutInstruction StdOutputter |}).
  { apply (balanced_well_formed StdOutputter StdInputter (filter_source raw));
      [exact Hbal' | | exact Hnew].
    unfold filter_source. rewrite chars_of_list. apply forallb_filter_same. }
  match goal with
  | |- context [interpret fuel ?c initial_state con] =>
      destruct (interpret fuel c initial_state con) as [[[st' con']|f]|] eqn:Hint
  end.
  - right. left. eauto.
  - right. right. apply interpret_faults in Hint; [subst f; reflexivity|exact Hwf|].
    vm_compute. discriminate.
  - left. reflexivity.
Qed.

Lemma main_balanced_outcomes_witness :
  main 4 "bf" ["clear.bf"%string] (file "+[-]") sample_console = None \/
  (exists st' con',
     main 4 "bf" ["clear.bf"%string] (file "+[-]") sample_console =
       Some (Ok {| exit_status := 0; err_stream := EmptyString;
                   opened := ["clear.bf"%string]; final_state := Some st';
                   final_console := con' |})) \/
  main 4 "bf" ["clear.bf"%string] (file "+[-]") sample_console =
    Some (Raise (undefined FieldBounds)).
Proof.
  apply (main_balanced_outcomes 4 "bf" "clear.bf" [] (file "+[-]")
           sample_console "+[-]"); reflexivity.
Defined.

(** ** [parse_code] on any source *)

Lemma parse_lockstep (code : string) :
  match for_chars build_bracket_map_body (chars code) 0 ([], ∅) with
  | Ok (st, m) =>
      exists ret,
        parse_code code = Ok ret /\
        length ret = length (chars code) /\
        slots_agree (chars code) (length (chars code)) ret m
  | Raise f => parse_code code = Raise f
  end.
Proof.
  pose proof (builders_lockstep (chars code) (chars code) [] []
                (replicate (length (chars code)) None) ∅ eq_refl
                (length_replicate _ _) (Forall_nil_2 _)
                (slots_agree_start _)) as Hlock.
  simpl length in Hlock. change (Z.of_nat 0) with 0 in Hlock.
  unfold parse_code.
  destruct (for_chars build_bracket_map_body (chars code) 0 ([], ∅))
    as [[st m]|f].
  - destruct Hlock as (ret & Hparse & Hlen & Hag). exists ret.
    rewrite Hparse. auto.
  - rewrite Hlock. reflexivity.
Qed.

(** X19: [parse_code] on every source. Where some ["]"] has no partner it
    reaches [back()] on an empty vector, undefined like in
    [build_bracket_map]; otherwise it returns a vector with one slot per
    character of the source, in which the slot of each of [+ - > < . ,]
    holds that character's instruction and the slot of any character
    outside the language holds a null pointer. *)
Theorem parse_code_slots (code : string) :
  match scan (chars code) 0 with
  | None => parse_code code = Raise (undefined EmptyBack)
  | Some _ =>
      exists ret,
        parse_code code = Ok ret /\
        code_size ret = code_length code /\
        forall (k : nat) (c : ascii), chars code !! k = Some c ->
          is_bracket c = false ->
          code_at ret (Z.of_nat k) = Ok (simple_instruction c) /\
          (is_bf_char c = false -> code_at ret (Z.of_nat k) = Ok None)
  end.
Proof.
  pose proof (parse_lockstep code) as Hlock.
  pose proof (build_scan (chars code) 0 [] ∅) as Hscan. simpl length in Hscan.
  destruct (scan (chars code) 0) as [d|].
  - destruct Hscan as (st & m & Hrun & _). rewrite Hrun in Hlock.
    destruct Hlock as (ret & Hparse & Hlen & Hag).
    exists ret. split; [exact Hparse|].
    split; [simpl; unfold code_length; rewrite Hlen; reflexivity|].
    intros k c Hk Hbr. pose proof (lookup_lt_Some _ _ _ Hk) as Hlt.
    assert (Hat : code_at ret (Z.of_nat k) = Ok (simple_instruction c)).
    { simpl code_at.
      replace ((0 <=? Z.of_nat k) && (Z.of_nat k <? Z.of_nat (length ret)))
        with true by (symmetry; apply andb_true_iff; split; lia).
      rewrite Nat2Z.id, (Hag k c Hk), Hbr.
      destruct (decide (k < length (chars code))%nat); [reflexivity|lia]. }
    split; [exact Hat|]. intros Hbf. rewrite Hat. f_equal.
    unfold is_bf_char in Hbf. unfold simple_instruction.
    repeat match goal with
           | |- context [(c =? ?x)%char] =>
               destruct (c =? x)%char; [discriminate|]
           end.
    reflexivity.
  - rewrite Hscan in Hlock. exact Hlock.
Qed.

(** X20: [parse_code] on a source in which only ["["]s lack a partner.
    It succeeds, and the slot of such a ["["] is left a null pointer: the
    dispatch loop that comes to it calls [execute] through null, which is
    undefined, where [FlyweightCode] would have thrown. *)
Theorem parse_code_unmatched_open (code : string) :
  unmatched_open_only code = true ->
  exists ret,
    parse_code code = Ok ret /\
    forall k : nat, chars code !! k = Some "["%char ->
      matching_close (chars code) k = None ->
      code_at ret (Z.of_nat k) = Ok None /\
      forall (st : BrainfuckState) (con : Console) (fuel : nat),
        program_counter st = Z.of_nat k ->
        interpret (S fuel) ret st con = Some (Raise (undefined NullInstruction)).
Proof.
  unfold unmatched_open_only. intros Hopen.
  destruct (scan (chars code) 0) as [[|d]|] eqn:Hd; try discriminate.
  pose proof (scan_Opened _ _ Hd) as Hop.
  destruct (build_Opened _ Hop 0 [] ∅) as (st' & m' & Hrun & _ & Hun).
  rewrite app_nil_r in Hrun.
  pose proof (parse_lockstep code) as Hlock. rewrite Hrun in Hlock.
  destruct Hlock as (ret & Hparse & Hlen & Hag).
  exists ret. split; [exact Hparse|]. intros k Hk Hnone.
  pose proof (lookup_lt_Some _ _ _ Hk) as Hlt.
  assert (Hat : code_at ret (Z.of_nat k) = Ok None).
  { simpl code_at.
    replace ((0 <=? Z.of_nat k) && (Z.of_nat k <? Z.of_nat (length ret)))
      with true by (symmetry; apply andb_true_iff; split; lia).
    rewrite Nat2Z.id, (Hag k _ Hk). simpl.
    pose proof (Hun k Hk Hnone) as Hm. rewrite Z.add_0_l in Hm.
    rewrite Hm, lookup_empty. reflexivity. }
  split; [exact Hat|]. intros st con fuel Hpc.
  rewrite interpret_running by (rewrite Hpc; simpl; lia).
  rewrite step_unfold. unfold fetch. rewrite Hpc, Hat. reflexivity.
Qed.

Lemma parse_code_unmatched_open_witness :
  exists ret, parse_code "+[" = Ok ret /\ code_at ret 1 = Ok None.
Proof.
  destruct (parse_code_unmatched_open "+[" eq_refl) as (ret & Hparse & Hall).
  exists ret. split; [exact Hparse|]. apply (Hall 1%nat); reflexivity.
Defined.

(** ** Cells stay bytes *)

Lemma execute_keeps_bytes (ins : Instruction) (st st' : BrainfuckState)
    (con con' : Console) :
  Forall (fun v => 0 <= v < 256) (field st) ->
  execute ins st con = Ok (st', con') ->
  Forall (fun v => 0 <= v < 256) (field st').
Proof.
  intros Hbytes Hex.
  assert (Hput : forall w st1, write_cell st (wrap_u8 w) = Ok st1 ->
            Forall (fun v => 0 <= v < 256) (field st1)).
  { intros w st1. unfold write_cell. destruct (in_field st); [|discriminate].
    intros [= <-]. simpl. apply Forall_insert; [exact Hbytes|].
    apply Z.mod_pos_bound. lia. }
  destruct ins; simpl in Hex; unfold_M.
  1,2: injection Hex as <- <-; exact Hbytes.
  1,2: destruct (read_cell st) as [v|]; [|discriminate];
       destruct (write_cell st _) as [st1|] eqn:Hw; [|discriminate];
       injection Hex as <- <-; exact (Hput _ _ Hw).
  1,2: destruct (read_cell st) as [v|]; [|discriminate];
       destruct v; simpl in Hex; injection Hex as <- <-; exact Hbytes.
  - destruct i. unfold in_, getchar in Hex. unfold_M.
    destruct (cin con) as [|b rest];
      destruct (write_cell st _) as [st1|] eqn:Hw; try discriminate;
      injection Hex as <- <-; exact (Hput _ _ Hw).
  - destruct (read_cell st) as [v|]; [|discriminate].
    destruct o; simpl in Hex; unfold putbytes in Hex; injection Hex as <- <-;
      exact Hbytes.
Qed.

(** X21: a tape of bytes stays a tape of bytes. If every cell holds a
    value of [uint8_t] at the start, every cell still does after any
    number of iterations of any program, whatever is read from the
    input. *)
Theorem run_keeps_bytes {C : Type} `{BFCode C} (code : C) (k : nat) :
  forall (st st' : BrainfuckState) (con con' : Console),
  Forall (fun v => 0 <= v < 256) (field st) ->
  steps k code st con = Ok (st', con') ->
  Forall (fun v => 0 <= v < 256) (field st').
Proof.
  induction k as [|k IH]; intros st st' con con' Hbytes Hrun.
  - injection Hrun as <- <-. exact Hbytes.
  - simpl in Hrun. unfold_M.
    destruct (step code st con) as [[st1 con1]|] eqn:Hstep; [|discriminate].
    apply (IH st1 st' con1 con'); [|exact Hrun].
    rewrite step_unfold in Hstep.
    destruct (fetch code st) as [ins|]; [|discriminate].
    destruct (execute ins st con) as [[st2 con2]|] eqn:Hex; [|discriminate].
    injection Hstep as <- <-. simpl.
    exact (execute_keeps_bytes _ _ _ _ _ Hbytes Hex).
Qed.

Lemma run_keeps_bytes_witness :
  Forall (fun v => 0 <= v < 256) [255; 0].
Proof.
  assert (Hrun : steps 1 clear_loop
            {| data_counter := 0; program_counter := 2; field := [0; 0] |}
            sample_console =
          Ok ({| data_counter := 0; program_counter := 3; field := [255; 0] |},
              sample_console)) by (vm_compute; reflexivity).
  apply (run_keeps_bytes clear_loop 1 _ _ _ _) with (2 := Hrun).
  simpl. repeat constructor; lia.
Defined.
